(** * custom_code_agent: the Python code-execution tool

    A shallow embedding of [custom_code_agent.py]: the fence-stripping
    normalizer [_clean_code] and the executor [_run] behind its confirmation
    prompt, both of [PythonCodeExecutorTool], the start-up of the script and
    the loop of [main], with the properties the design document states about
    them and further ones read off the code. *)

From Stdlib Require Import List Bool Arith ZArith NArith Lia.
From Stdlib Require Import Ascii String DecimalString.
Import ListNotations.

(** ** Python strings

    A Python [str] is a sequence of Unicode code points.  It is modelled as a
    list of code points, each a natural number; literals of the source are
    written as Rocq strings and read through [py]. *)

Definition codepoint := N.
Definition pystr := list codepoint.

Definition py (s : string) : pystr :=
  map N_of_ascii (list_ascii_of_string s).

(** The newline character, written [\n] in the source. *)
Definition NL : pystr := [10%N].

(** [Py_UNICODE_ISSPACE]: the code points that [str.strip()] removes when it
    is called without an argument (CPython's [_Py_ascii_whitespace] table for
    the ASCII range, [_PyUnicode_IsWhitespace] above it). *)
Definition isspace (c : codepoint) : bool :=
  ((9 <=? c) && (c <=? 13) ||
   (28 <=? c) && (c <=? 32) ||
   (c =? 133) || (c =? 160) || (c =? 5760) ||
   (8192 <=? c) && (c <=? 8202) ||
   (c =? 8232) || (c =? 8233) || (c =? 8239) || (c =? 8287) ||
   (c =? 12288))%N.

(** [str.lstrip()], [str.rstrip()] and [str.strip()]. *)
Fixpoint lstrip (s : pystr) : pystr :=
  match s with
  | [] => []
  | c :: s' => if isspace c then lstrip s' else s
  end.

Definition rstrip (s : pystr) : pystr := rev (lstrip (rev s)).

Definition strip (s : pystr) : pystr := rstrip (lstrip s).

(** [a == b] on strings. *)
Fixpoint str_eqb (a b : pystr) : bool :=
  match a, b with
  | [], [] => true
  | x :: a', y :: b' => (x =? y)%N && str_eqb a' b'
  | _, _ => false
  end.

(** [s.startswith(p)] and [s.endswith(p)]. *)
Fixpoint startswith (s p : pystr) {struct p} : bool :=
  match p, s with
  | [], _ => true
  | _ :: _, [] => false
  | a :: p', b :: s' => (a =? b)%N && startswith s' p'
  end.

Definition endswith (s p : pystr) : bool := startswith (rev s) (rev p).

(** [sub in s]: substring test. *)
Fixpoint contains (s sub : pystr) : bool :=
  startswith s sub ||
  match s with
  | [] => false
  | _ :: s' => contains s' sub
  end.

(** [sep.join(parts)]. *)
Fixpoint join (sep : pystr) (parts : list pystr) : pystr :=
  match parts with
  | [] => []
  | [p] => p
  | p :: rest => p ++ sep ++ join sep rest
  end.

(** Truth value of a string: [not s] holds exactly for the empty string. *)
Definition truthy (s : pystr) : bool :=
  match s with [] => false | _ :: _ => true end.

(** [len(s)]. *)
Definition len (s : pystr) : nat := List.length s.

(** [s[n:]] and [s[:-n]] for a non-negative [n]. *)
Definition slice_from (n : nat) (s : pystr) : pystr := skipn n s.
Definition slice_to_neg (n : nat) (s : pystr) : pystr :=
  firstn (len s - n) s.

(** [str(n)] for an [int]: decimal digits, with a minus sign when negative. *)
Definition str_int (n : Z) : pystr := py (NilZero.string_of_int (Z.to_int n)).

(** ** The normalizer *)

Definition FENCE_PYTHON : pystr := py "```python".
Definition FENCE : pystr := py "```".

(** [PythonCodeExecutorTool._clean_code]. *)
Definition _clean_code (code_input : pystr) : pystr :=
  let code := strip code_input in
  let code :=
    if startswith code FENCE_PYTHON then
      strip (slice_from (len FENCE_PYTHON) code)
    else if startswith code FENCE then
      strip (slice_from (len FENCE) code)
    else code in
  let code :=
    if endswith code FENCE then strip (slice_to_neg (len FENCE) code)
    else code in
  code.

(** ** The executor's environment

    [_run] talks to three things outside itself: the operator's console
    ([print] and [input]), the interpreter's own tables ([str.lower],
    [sys.executable]) and the operating system ([subprocess.run]).  Each is a
    field of the [world] the call runs in. *)

(** What [subprocess.run(..., capture_output=True, text=True, check=False)]
    returns when the child exits within the deadline. *)
Record CompletedProcess := {
  stdout : pystr;
  stderr : pystr;
  returncode : Z
}.

(** The exceptions [_run] can meet, by the classes its handlers tell apart. *)
Inductive exception :=
  (** [subprocess.TimeoutExpired]: the child outlived the deadline and was
      killed; the exception carries what had been captured so far. *)
  | TimeoutExpired (partial_stdout partial_stderr : pystr)
  (** [EOFError]: [input()] met the end of its stream. *)
  | EOFError
  (** any other instance of [Exception] ([OSError], [ValueError], ...);
      [message] is [str(e)]. *)
  | StdException (message : pystr)
  (** the instances of [BaseException] that are not an [Exception]. *)
  | KeyboardInterrupt
  | SystemExit.

Definition is_TimeoutExpired (e : exception) : bool :=
  match e with TimeoutExpired _ _ => true | _ => false end.

Definition is_Exception (e : exception) : bool :=
  match e with
  | KeyboardInterrupt | SystemExit => false
  | TimeoutExpired _ _ | EOFError | StdException _ => true
  end.

(** [str(e)]. *)
Definition str_exception (e : exception) : pystr :=
  match e with
  | TimeoutExpired _ _ => py "Command timed out"
  | EOFError => py "EOF when reading a line"
  | StdException m => m
  | KeyboardInterrupt | SystemExit => []
  end.

Record world := {
  (** [str.lower], which CPython computes from the Unicode database. *)
  str_lower : pystr -> pystr;
  (** [sys.executable]. *)
  sys_executable : pystr;
  (** [input(prompt)]: the line the operator types, or the exception raised
      (end of file, interrupt). *)
  console_input : pystr -> exception + pystr;
  (** [subprocess.run(args, timeout=t, ...)]. *)
  subprocess_run : list pystr -> Z -> exception + CompletedProcess
}.

(** What the call does to the outside, in order. *)
Inductive event :=
  | EvPrint (line : pystr)
  | EvInput (prompt : pystr)
  | EvSpawn (args : list pystr) (timeout : Z).

Definition is_spawn (ev : event) : bool :=
  match ev with EvSpawn _ _ => true | _ => false end.

Definition is_input (ev : event) : bool :=
  match ev with EvInput _ => true | _ => false end.

(** How a call ends. *)
Inductive result (A : Type) :=
  | Returned (a : A)
  | Raised (e : exception).
Arguments Returned {A} a.
Arguments Raised {A} e.

(** Computations that log their events and may raise. *)
Definition M (A : Type) : Type := world -> list event * result A.

Definition ret {A} (a : A) : M A := fun _ => ([], Returned a).

Definition bind {A B} (m : M A) (f : A -> M B) : M B :=
  fun w =>
    match m w with
    | (t1, Returned a) => let (t2, r) := f a w in (t1 ++ t2, r)
    | (t1, Raised e) => (t1, Raised e)
    end.

Notation "x <- m ;; k" := (bind m (fun x => k))
  (at level 61, m at next level, right associativity).
Notation "m ;; k" := (bind m (fun _ => k))
  (at level 61, right associativity).

(** [try: body / except ...: handler]; a handler answering [None] does not
    match the exception, which then propagates. *)
Definition try_except {A} (body : M A) (handler : exception -> option (M A)) : M A :=
  fun w =>
    match body w with
    | (t1, Returned a) => (t1, Returned a)
    | (t1, Raised e) =>
        match handler e with
        | Some h => let (t2, r) := h w in (t1 ++ t2, r)
        | None => (t1, Raised e)
        end
    end.

(** [print(line)]; writing to the operator's console is taken to succeed. *)
Definition print (line : pystr) : M unit :=
  fun _ => ([EvPrint line], Returned tt).

(** [input(prompt)]. *)
Definition input (prompt : pystr) : M pystr :=
  fun w =>
    ([EvInput prompt],
     match console_input w prompt with
     | inr line => Returned line
     | inl e => Raised e
     end).

(** [subprocess.run(args, capture_output=True, text=True, timeout=timeout,
    check=False)]. *)
Definition run_subprocess (args : list pystr) (timeout : Z) : M CompletedProcess :=
  fun w =>
    ([EvSpawn args timeout],
     match subprocess_run w args timeout with
     | inr process => Returned process
     | inl e => Raised e
     end).

Definition lower (s : pystr) : M pystr := fun w => ([], Returned (str_lower w s)).
Definition executable : M pystr := fun w => ([], Returned (sys_executable w)).

(** ** The executor *)

Definition MSG_EMPTY : pystr :=
  py "Error: No valid Python code provided after cleaning. The input might have been empty or only markdown.".
Definition MSG_CANCELED : pystr := py "Code execution CANCELED by user.".
Definition MSG_NO_OUTPUT : pystr :=
  py "Code executed successfully with no output to stdout or stderr.".
Definition MSG_TIMEOUT : pystr :=
  py "Error: Code execution timed out after 60 seconds.".
Definition MSG_UNEXPECTED : pystr :=
  py "An unexpected error occurred during Python code execution: ".
Definition PROMPT : pystr := py "Do you want to execute this cleaned code? [y/N]: ".
Definition LABEL_STDOUT : pystr := py "Standard Output:".
Definition LABEL_STDERR : pystr := py "Standard Error:".

(** The body of the [try] block of [_run] after [subprocess.run] has
    returned: from [output_parts = []] to [return result_message.strip()]. *)
Definition result_message (process : CompletedProcess) : pystr :=
  let output_parts : list pystr := [] in
  let output_parts :=
    if truthy (stdout process) then
      output_parts ++ [LABEL_STDOUT ++ NL ++ strip (stdout process)]
    else output_parts in
  let output_parts :=
    if truthy (stderr process) then
      output_parts ++ [LABEL_STDERR ++ NL ++ strip (stderr process)]
    else output_parts in
  let result_message := join NL output_parts in
  let result_message :=
    if negb (truthy result_message) && (returncode process =? 0)%Z then
      MSG_NO_OUTPUT
    else if negb (truthy result_message) && negb (returncode process =? 0)%Z then
      py "Code execution failed with return code " ++ str_int (returncode process)
        ++ py " and no specific error message."
    else if negb (returncode process =? 0)%Z
            && negb (contains result_message (py "Standard Error")) then
      result_message ++ NL ++ py "Code execution finished with return code: "
        ++ str_int (returncode process)
    else result_message in
  strip result_message.

(** [PythonCodeExecutorTool._run]. *)
Definition _run (code : pystr) : M pystr :=
  let cleaned_code := _clean_code code in
  print (NL ++ py "--- PROPOSED CLEANED CODE ---") ;;
  print cleaned_code ;;
  print (py "---------------------------" ++ NL) ;;
  if negb (truthy cleaned_code) then ret MSG_EMPTY
  else
    confirm <- input PROMPT ;;
    confirm_lower <- lower confirm ;;
    if negb (str_eqb confirm_lower (py "y")) then ret MSG_CANCELED
    else
      try_except
        (exe <- executable ;;
         process <- run_subprocess [exe; py "-c"; cleaned_code] 60 ;;
         ret (result_message process))
        (fun e =>
           if is_TimeoutExpired e then Some (ret MSG_TIMEOUT)
           else if is_Exception e then Some (ret (MSG_UNEXPECTED ++ str_exception e))
           else None).

(** ** Vocabulary of the properties *)

(** A string made of whitespace only. *)
Definition blank (s : pystr) : bool := forallb isspace s.

(** No whitespace at the start, resp. at the end, of a string. *)
Definition starts_clean (s : pystr) : bool :=
  match s with
  | [] => true
  | c :: _ => negb (isspace c)
  end.

Definition ends_clean (s : pystr) : bool := starts_clean (rev s).

(** The second and third statements of [_clean_code] on their own. *)
Definition remove_opening (code : pystr) : pystr :=
  if startswith code FENCE_PYTHON then
    strip (slice_from (len FENCE_PYTHON) code)
  else if startswith code FENCE then
    strip (slice_from (len FENCE) code)
  else code.

Definition remove_closing (code : pystr) : pystr :=
  if endswith code FENCE then strip (slice_to_neg (len FENCE) code)
  else code.

(** Two fence markers in a row at the start of a text (the first one bare
    or tagged [python]), resp. at its end, with at most whitespace between
    them. *)
Definition stacked_opening (t : pystr) : Prop :=
  exists tag ws rest,
    t = FENCE ++ tag ++ ws ++ FENCE ++ rest /\
    (tag = [] \/ tag = py "python") /\ blank ws = true.

Definition stacked_closing (t : pystr) : Prop :=
  exists pre ws, t = pre ++ FENCE ++ ws ++ FENCE /\ blank ws = true.

(** The same two conditions as tests that compute. *)
Definition stacked_openingb (t : pystr) : bool :=
  startswith t FENCE && startswith (lstrip (slice_from 3 t)) FENCE ||
  startswith t FENCE_PYTHON && startswith (lstrip (slice_from 9 t)) FENCE.

Definition stacked_closingb (t : pystr) : bool :=
  endswith t FENCE && endswith (rstrip (slice_to_neg 3 t)) FENCE.

(** The three lines [_run] prints before anything else. *)
Definition banner (cleaned_code : pystr) : list event :=
  [EvPrint (NL ++ py "--- PROPOSED CLEANED CODE ---");
   EvPrint cleaned_code;
   EvPrint (py "---------------------------" ++ NL)].

(** The operator declined: the prompt was reached and answered with
    something whose lower-case form is not [y]. *)
Definition declined (w : world) (code : pystr) : Prop :=
  _clean_code code <> [] /\
  exists confirm,
    console_input w PROMPT = inr confirm /\ str_lower w confirm <> py "y".

(** The operator approved: the prompt was reached and answered with
    something whose lower-case form is [y]. *)
Definition approved (w : world) (code : pystr) : Prop :=
  _clean_code code <> [] /\
  exists confirm,
    console_input w PROMPT = inr confirm /\ str_lower w confirm = py "y".

(** The argument vector [_run] hands to [subprocess.run]. *)
Definition argv (w : world) (code : pystr) : list pystr :=
  [sys_executable w; py "-c"; _clean_code code].

(** ** Concrete worlds *)

(** [str.lower] restricted to what it does on ASCII text: [A]-[Z] go to
    [a]-[z], every other code point is kept. *)
Definition ascii_lower (s : pystr) : pystr :=
  map (fun c => if (65 <=? c) && (c <=? 90) then c + 32 else c)%N s.

(** A world that answers the prompt with [reply] and every launch with
    [outcome]. *)
Definition scripted (reply : exception + pystr)
    (outcome : exception + CompletedProcess) : world :=
  {| str_lower := ascii_lower;
     sys_executable := py "/usr/bin/python3";
     console_input := fun _ => reply;
     subprocess_run := fun _ _ => outcome |}.

Definition exited (out err : pystr) (rc : Z) : exception + CompletedProcess :=
  inr {| stdout := out; stderr := err; returncode := rc |}.

(** ** The interaction loop

    [main] prompts for a line, hands it to [agent_executor.invoke] and prints
    the answer, until the line is [exit].  The agent and its language model
    are not part of this file: what the agent does with a line is given by
    the session, turn by turn, together with the line the user types.  A
    session is finite: after its last turn [input] raises (end of input or
    an interrupt). *)

(** What one call of [agent_executor.invoke({"input": user_input})] does:
    the events of the tools it runs meanwhile, and either the text under
    [response['output']] or the exception that comes out of the [try]
    body. *)
Record agent_outcome := {
  agent_events : list event;
  agent_result : exception + pystr
}.

(** One turn: the line typed at the [User:] prompt and how the agent would
    answer an input. *)
Record turn := {
  typed : pystr;
  agent_executor_invoke : pystr -> agent_outcome
}.

Inductive session_event :=
  | SPrint (line : pystr)
  | SInput (prompt : pystr)
  | SInvoke (user_input : pystr) (inner : list event).

Definition USER_PROMPT : pystr := NL ++ py "User: ".
Definition MSG_EXITING : pystr := py "Exiting agent.".

(** The [while True:] loop of [main]; [lower] is [str.lower] and
    [at_end] the exception [input] raises once the session is over. *)
Fixpoint main_loop (lower : pystr -> pystr) (turns : list turn)
    (at_end : exception) : list session_event * result unit :=
  match turns with
  | [] => ([SInput USER_PROMPT], Raised at_end)
  | t :: rest =>
      let user_input := typed t in
      if str_eqb (lower user_input) (py "exit") then
        ([SInput USER_PROMPT; SPrint MSG_EXITING], Returned tt)
      else if negb (truthy (strip user_input)) then
        let (trace, r) := main_loop lower rest at_end in
        (SInput USER_PROMPT :: trace, r)
      else
        let response := agent_executor_invoke t user_input in
        match agent_result response with
        | inr output =>
            let (trace, r) := main_loop lower rest at_end in
            (SInput USER_PROMPT :: SInvoke user_input (agent_events response)
               :: SPrint (NL ++ py "Agent: " ++ output) :: trace, r)
        | inl e =>
            if is_Exception e then
              let (trace, r) := main_loop lower rest at_end in
              (SInput USER_PROMPT :: SInvoke user_input (agent_events response)
                 :: SPrint (NL ++ py "An error occurred during agent execution: "
                              ++ str_exception e) :: trace, r)
            else
              ([SInput USER_PROMPT; SInvoke user_input (agent_events response)],
               Raised e)
        end
  end.

(** [main]. *)
Definition main (lower : pystr -> pystr) (turns : list turn)
    (at_end : exception) : list session_event * result unit :=
  let (trace, r) := main_loop lower turns at_end in
  (SPrint (NL ++ py "Verified Code Agent (Groq - Llama3-8B) Initialized.")
   :: SPrint (py "Type 'exit' to quit.")
   :: SPrint (py "Agent will attempt to generate and execute Python code based on your prompts.")
   :: SPrint (py "For complex tasks, the agent may need several steps or might not complete it perfectly in one go.")
   :: trace, r).

(** The inputs the agent was invoked with, in order, and the number of
    prompts shown. *)
Fixpoint invoked (trace : list session_event) : list pystr :=
  match trace with
  | [] => []
  | SInvoke user_input _ :: trace' => user_input :: invoked trace'
  | _ :: trace' => invoked trace'
  end.

Fixpoint prompts (trace : list session_event) : nat :=
  match trace with
  | [] => 0
  | SInput _ :: trace' => S (prompts trace')
  | _ :: trace' => prompts trace'
  end.

(** The lines typed before the first [exit]. *)
Fixpoint before_exit (lower : pystr -> pystr) (lines : list pystr) : list pystr :=
  match lines with
  | [] => []
  | line :: rest =>
      if str_eqb (lower line) (py "exit") then []
      else line :: before_exit lower rest
  end.

(** An agent whose failures are all instances of [Exception]. *)
Definition agent_fails_softly (t : turn) : Prop :=
  forall user_input e,
    agent_result (agent_executor_invoke t user_input) = inl e ->
    is_Exception e = true.

(** An agent that echoes its input, and one that always fails. *)
Definition echo_turn (line : pystr) : turn :=
  {| typed := line;
     agent_executor_invoke := fun u => {| agent_events := []; agent_result := inr u |} |}.

Definition failing_turn (line : pystr) : turn :=
  {| typed := line;
     agent_executor_invoke :=
       fun _ => {| agent_events := [];
                   agent_result := inl (StdException (py "rate limit")) |} |}.

(** ** Start-up

    The statements the script runs before it builds the agent: it reads the
    key from the environment, builds the client of the language model and
    sends it one probe. *)

Record startup_env := {
  (** [os.getenv("GROQ_API_KEY")] once [load_dotenv()] has run; [None] when
      the variable is not set. *)
  getenv_GROQ_API_KEY : option pystr;
  (** [ChatGroq(temperature=0.05, model_name=..., groq_api_key=key)]: the
      exception the constructor raises, if any. *)
  ChatGroq : pystr -> pystr -> option exception;
  (** [llm.invoke(text)]: the reply, or the exception raised. *)
  llm_invoke : pystr -> exception + pystr
}.

Inductive startup_event :=
  | UPrint (line : pystr)
  | UConstruct (model_name groq_api_key : pystr)
  | UProbe (text : pystr).

(** How the start-up ends: the script goes on to build the agent, the
    process exits through [sys.exit], or an exception escapes. *)
Inductive startup_end :=
  | Ready
  | Exited (status : Z)
  | Escaped (e : exception).

Definition MODEL_NAME : pystr := py "llama3-8b-8192".
Definition PROBE : pystr := py "Respond with only 'OK'.".

(** The handler [except Exception as e:] of the start-up. *)
Definition startup_handler (e : exception) : list startup_event * startup_end :=
  if is_Exception e then
    ([UPrint (py "Error initializing or testing Groq LLM: " ++ str_exception e);
      UPrint (py "Please ensure your GROQ_API_KEY is correct and the model name is valid.");
      UPrint (py "Check available models at https://console.groq.com/docs/models")],
     Exited 1)
  else ([], Escaped e).

(** The module-level statements from [GROQ_API_KEY = os.getenv(...)] to the
    end of the [try] statement. *)
Definition startup (env : startup_env) : list startup_event * startup_end :=
  let no_key :=
    ([UPrint (py "Error: GROQ_API_KEY not found in environment variables.");
      UPrint (py "Please create a .env file with GROQ_API_KEY='your_key_here'")],
     Exited 1%Z) in
  match getenv_GROQ_API_KEY env with
  | None => no_key
  | Some GROQ_API_KEY =>
      if negb (truthy GROQ_API_KEY) then no_key
      else
        match ChatGroq env MODEL_NAME GROQ_API_KEY with
        | Some e =>
            let (trace, r) := startup_handler e in
            (UConstruct MODEL_NAME GROQ_API_KEY :: trace, r)
        | None =>
            match llm_invoke env PROBE with
            | inl e =>
                let (trace, r) := startup_handler e in
                (UConstruct MODEL_NAME GROQ_API_KEY :: UProbe PROBE :: trace, r)
            | inr _ =>
                ([UConstruct MODEL_NAME GROQ_API_KEY; UProbe PROBE;
                  UPrint (py "Groq LLM initialized and tested successfully.")],
                 Ready)
            end
        end
  end.

Definition is_contact (ev : startup_event) : bool :=
  match ev with UPrint _ => false | _ => true end.

(** * Properties *)

Example str_int_examples :
  str_int 0 = py "0" /\ str_int 3 = py "3" /\ str_int 137 = py "137" /\
  str_int (-9) = py "-9".
Proof. repeat split; reflexivity. Qed.


(** ** Whitespace stripping *)

Lemma blank_app a b : blank (a ++ b) = blank a && blank b.
Proof. apply forallb_app. Qed.

Lemma blank_rev s : blank (rev s) = blank s.
Proof.
  induction s as [|c s IH]; simpl; [reflexivity|].
  rewrite blank_app, IH. simpl. rewrite andb_true_r. apply andb_comm.
Qed.

Lemma lstrip_blank ws : blank ws = true -> lstrip ws = [].
Proof.
  induction ws as [|c ws IH]; simpl; [reflexivity|].
  intros H. apply andb_true_iff in H as [Hc Hws]. rewrite Hc. auto.
Qed.

Lemma lstrip_blank_app ws s : blank ws = true -> lstrip (ws ++ s) = lstrip s.
Proof.
  induction ws as [|c ws IH]; simpl; [reflexivity|].
  intros H. apply andb_true_iff in H as [Hc Hws]. rewrite Hc. auto.
Qed.

Lemma lstrip_clean s : starts_clean s = true -> lstrip s = s.
Proof.
  destruct s as [|c s]; simpl; [reflexivity|].
  intros H. apply negb_true_iff in H. now rewrite H.
Qed.

Lemma lstrip_starts_clean s : starts_clean (lstrip s) = true.
Proof.
  induction s as [|c s IH]; simpl; [reflexivity|].
  destruct (isspace c) eqn:Hc; [exact IH|]. simpl. now rewrite Hc.
Qed.

Lemma lstrip_split s : exists ws, blank ws = true /\ s = ws ++ lstrip s.
Proof.
  induction s as [|c s [ws [Hws Hs]]]; simpl.
  - exists []. split; reflexivity.
  - destruct (isspace c) eqn:Hc.
    + exists (c :: ws). simpl. rewrite Hc, Hws. split; [reflexivity|].
      now rewrite <- Hs.
    + exists []. split; reflexivity.
Qed.

Lemma rstrip_split s : exists ws, blank ws = true /\ s = rstrip s ++ ws.
Proof.
  destruct (lstrip_split (rev s)) as [ws [Hws Hs]].
  exists (rev ws). split; [now rewrite blank_rev|].
  unfold rstrip. rewrite <- rev_app_distr, <- Hs. symmetry. apply rev_involutive.
Qed.

Lemma rstrip_clean s : ends_clean s = true -> rstrip s = s.
Proof.
  intros H. unfold rstrip. rewrite (lstrip_clean _ H). apply rev_involutive.
Qed.

Lemma rstrip_ends_clean s : ends_clean (rstrip s) = true.
Proof.
  unfold ends_clean, rstrip. rewrite rev_involutive. apply lstrip_starts_clean.
Qed.

Lemma rstrip_blank_app s ws : blank ws = true -> rstrip (s ++ ws) = rstrip s.
Proof.
  intros H. unfold rstrip. rewrite rev_app_distr, lstrip_blank_app; [reflexivity|].
  now rewrite blank_rev.
Qed.

Lemma starts_clean_prefix a b :
  a <> [] -> starts_clean (a ++ b) = starts_clean a.
Proof. destruct a; [congruence | reflexivity]. Qed.

Lemma ends_clean_suffix a b :
  b <> [] -> ends_clean (a ++ b) = ends_clean b.
Proof.
  intros H. unfold ends_clean. rewrite rev_app_distr.
  apply starts_clean_prefix. intros E. apply H.
  rewrite <- (rev_involutive b), E. reflexivity.
Qed.

Lemma rstrip_starts_clean s :
  starts_clean s = true -> starts_clean (rstrip s) = true.
Proof.
  intros H. destruct (rstrip_split s) as [ws [_ Hs]].
  destruct (rstrip s) as [|c r] eqn:E; [reflexivity|].
  rewrite Hs in H. exact H.
Qed.

Lemma strip_starts_clean s : starts_clean (strip s) = true.
Proof. apply rstrip_starts_clean, lstrip_starts_clean. Qed.

Lemma strip_ends_clean s : ends_clean (strip s) = true.
Proof. apply rstrip_ends_clean. Qed.

Lemma strip_id s :
  starts_clean s = true -> ends_clean s = true -> strip s = s.
Proof.
  intros Hs He. unfold strip. rewrite (lstrip_clean _ Hs). now apply rstrip_clean.
Qed.

Lemma strip_idem s : strip (strip s) = strip s.
Proof. apply strip_id; [apply strip_starts_clean | apply strip_ends_clean]. Qed.

Lemma strip_split s :
  exists ws1 ws2,
    blank ws1 = true /\ blank ws2 = true /\ s = ws1 ++ strip s ++ ws2.
Proof.
  destruct (lstrip_split s) as [ws1 [H1 Hs]].
  destruct (rstrip_split (lstrip s)) as [ws2 [H2 Hl]].
  exists ws1, ws2. repeat split; try assumption.
  unfold strip. now rewrite <- Hl.
Qed.

Lemma strip_unique ws1 m ws2 :
  blank ws1 = true -> blank ws2 = true ->
  starts_clean m = true -> ends_clean m = true ->
  strip (ws1 ++ m ++ ws2) = m.
Proof.
  intros H1 H2 Hs He. unfold strip. rewrite lstrip_blank_app by exact H1.
  destruct m as [|c m].
  - simpl. now rewrite (lstrip_blank _ H2).
  - rewrite lstrip_clean by exact Hs.
    rewrite rstrip_blank_app by exact H2. now apply rstrip_clean.
Qed.

Lemma ends_clean_no_blank_tail a ws :
  ends_clean (a ++ ws) = true -> blank ws = true -> ws = [].
Proof.
  intros He Hb. destruct ws as [|c ws] using rev_ind; [reflexivity|].
  exfalso. unfold ends_clean in He.
  rewrite app_assoc, rev_app_distr in He. simpl in He.
  rewrite blank_app in Hb. apply andb_true_iff in Hb as [_ Hc].
  simpl in Hc. rewrite andb_true_r in Hc. rewrite Hc in He. discriminate.
Qed.

Lemma len_lstrip s : len (lstrip s) <= len s.
Proof.
  destruct (lstrip_split s) as [ws [_ Hs]]. unfold len.
  rewrite Hs at 2. rewrite length_app. lia.
Qed.

Lemma len_rstrip s : len (rstrip s) <= len s.
Proof.
  destruct (rstrip_split s) as [ws [_ Hs]]. unfold len.
  rewrite Hs at 2. rewrite length_app. lia.
Qed.

Lemma len_strip s : len (strip s) <= len s.
Proof.
  unfold strip. etransitivity; [apply len_rstrip | apply len_lstrip].
Qed.

(** ** Prefixes and suffixes *)

Lemma startswith_app p r : startswith (p ++ r) p = true.
Proof.
  induction p as [|a p IH]; simpl; [reflexivity|].
  now rewrite N.eqb_refl.
Qed.

Lemma startswith_inv s p : startswith s p = true -> s = p ++ skipn (len p) s.
Proof.
  revert s. induction p as [|a p IH]; intros s H; simpl in *; [reflexivity|].
  destruct s as [|b s]; [discriminate|].
  apply andb_true_iff in H as [Hab Hs]. apply N.eqb_eq in Hab. subst b.
  simpl. f_equal. now apply IH.
Qed.

Lemma startswith_weaken s p q :
  startswith s (p ++ q) = true -> startswith s p = true.
Proof.
  revert s. induction p as [|a p IH]; intros s H; simpl in *; [reflexivity|].
  destruct s as [|b s]; [discriminate|].
  apply andb_true_iff in H as [Hab Hs]. rewrite Hab. simpl. now apply IH.
Qed.

Lemma startswith_grow s t p :
  startswith s p = true -> startswith (s ++ t) p = true.
Proof.
  intros H. rewrite (startswith_inv _ _ H), <- app_assoc. apply startswith_app.
Qed.

Lemma startswith_len s p : startswith s p = true -> len p <= len s.
Proof.
  intros H. unfold len. rewrite (startswith_inv _ _ H), length_app.
  fold (len p). lia.
Qed.

Lemma endswith_app r p : endswith (r ++ p) p = true.
Proof. unfold endswith. rewrite rev_app_distr. apply startswith_app. Qed.

Lemma endswith_split s p : endswith s p = true -> exists r, s = r ++ p.
Proof.
  intros H. apply startswith_inv in H.
  exists (rev (skipn (len (rev p)) (rev s))).
  rewrite <- (rev_involutive p) at 2. rewrite <- rev_app_distr, <- H.
  symmetry. apply rev_involutive.
Qed.

Lemma slice_to_neg_app r p : slice_to_neg (len p) (r ++ p) = r.
Proof.
  unfold slice_to_neg, len. rewrite length_app, Nat.add_sub.
  rewrite <- (Nat.add_0_r (List.length r)), firstn_app_2. simpl.
  apply app_nil_r.
Qed.

Lemma endswith_inv s p :
  endswith s p = true -> s = slice_to_neg (len p) s ++ p.
Proof.
  intros H. destruct (endswith_split _ _ H) as [r ->].
  now rewrite slice_to_neg_app.
Qed.

Lemma endswith_len s p : endswith s p = true -> len p <= len s.
Proof.
  intros H. apply startswith_len in H. unfold len in *.
  now rewrite !length_rev in H.
Qed.

Lemma fence_python_is_fence s :
  startswith s FENCE_PYTHON = true -> startswith s FENCE = true.
Proof. apply (startswith_weaken s FENCE (py "python")). Qed.

(** ** The normalizer, statement by statement *)

Lemma clean_code_steps x :
  _clean_code x = remove_closing (remove_opening (strip x)).
Proof. reflexivity. Qed.

Lemma remove_opening_clean t :
  starts_clean t = true -> ends_clean t = true ->
  starts_clean (remove_opening t) = true /\ ends_clean (remove_opening t) = true.
Proof.
  intros Hs He. unfold remove_opening.
  destruct (startswith t FENCE_PYTHON);
    [|destruct (startswith t FENCE)];
    auto using strip_starts_clean, strip_ends_clean.
Qed.

Lemma remove_closing_clean t :
  starts_clean t = true -> ends_clean t = true ->
  starts_clean (remove_closing t) = true /\ ends_clean (remove_closing t) = true.
Proof.
  intros Hs He. unfold remove_closing.
  destruct (endswith t FENCE); auto using strip_starts_clean, strip_ends_clean.
Qed.

Lemma clean_code_clean x :
  starts_clean (_clean_code x) = true /\ ends_clean (_clean_code x) = true.
Proof.
  rewrite clean_code_steps.
  apply remove_closing_clean; apply remove_opening_clean;
    auto using strip_starts_clean, strip_ends_clean.
Qed.

Lemma len_remove_opening t : len (remove_opening t) <= len t.
Proof.
  unfold remove_opening, slice_from.
  destruct (startswith t FENCE_PYTHON);
    [|destruct (startswith t FENCE)]; [| |lia];
    (etransitivity; [apply len_strip|]); unfold len; rewrite length_skipn; lia.
Qed.

Lemma len_remove_opening_fence t :
  startswith t FENCE = true -> len (remove_opening t) + 3 <= len t.
Proof.
  intros H. pose proof (startswith_len _ _ H) as Hl. unfold remove_opening, slice_from.
  destruct (startswith t FENCE_PYTHON) eqn:Hp.
  - pose proof (startswith_len _ _ Hp) as Hlp.
    pose proof (len_strip (skipn (len FENCE_PYTHON) t)) as Hle.
    unfold len in *. rewrite length_skipn in Hle. simpl in *. lia.
  - rewrite H. pose proof (len_strip (skipn (len FENCE) t)) as Hle.
    unfold len in *. rewrite length_skipn in Hle. simpl in *. lia.
Qed.

Lemma len_remove_closing t : len (remove_closing t) <= len t.
Proof.
  unfold remove_closing, slice_to_neg. destruct (endswith t FENCE); [|lia].
  etransitivity; [apply len_strip|]. unfold len. rewrite length_firstn. lia.
Qed.

Lemma len_remove_closing_fence t :
  endswith t FENCE = true -> len (remove_closing t) + 3 <= len t.
Proof.
  intros H. pose proof (endswith_len _ _ H) as Hl. unfold remove_closing, slice_to_neg.
  rewrite H. pose proof (len_strip (firstn (len t - len FENCE) t)) as Hle.
  unfold len in *. rewrite length_firstn in Hle. simpl in *. lia.
Qed.

(** A text that is already trimmed and carries no marker at either end is
    left as it is. *)
Lemma clean_code_fixed y :
  starts_clean y = true -> ends_clean y = true ->
  startswith y FENCE = false -> endswith y FENCE = false ->
  _clean_code y = y.
Proof.
  intros Hs He Hf Hc. rewrite clean_code_steps, (strip_id y Hs He).
  unfold remove_opening. rewrite Hf.
  destruct (startswith y FENCE_PYTHON) eqn:Hp.
  - apply fence_python_is_fence in Hp. congruence.
  - unfold remove_closing. now rewrite Hc.
Qed.

(** A trimmed text with a marker at one end gets strictly shorter. *)
Lemma clean_code_shrinks y :
  starts_clean y = true -> ends_clean y = true ->
  startswith y FENCE = true \/ endswith y FENCE = true ->
  len (_clean_code y) < len y.
Proof.
  intros Hs He H. rewrite clean_code_steps, (strip_id y Hs He).
  destruct (startswith y FENCE) eqn:Hf.
  - pose proof (len_remove_opening_fence y Hf).
    pose proof (len_remove_closing (remove_opening y)). lia.
  - destruct H as [H|H]; [discriminate|].
    assert (remove_opening y = y) as ->.
    { unfold remove_opening. rewrite Hf.
      destruct (startswith y FENCE_PYTHON) eqn:Hp; [|reflexivity].
      apply fence_python_is_fence in Hp. congruence. }
    pose proof (len_remove_closing_fence y H). lia.
Qed.

(** ** Where a marker can survive *)

Lemma stacked_closing_suffix a s : stacked_closing s -> stacked_closing (a ++ s).
Proof.
  intros [pre [ws [-> Hws]]]. exists (a ++ pre), ws.
  split; [now rewrite <- app_assoc | assumption].
Qed.

(** The closing step never uncovers a marker at the start. *)
Lemma remove_closing_leading s :
  starts_clean s = true ->
  startswith (remove_closing s) FENCE = true -> startswith s FENCE = true.
Proof.
  intros Hs. unfold remove_closing. destruct (endswith s FENCE) eqn:He; [|auto].
  destruct (endswith_split _ _ He) as [r ->]. rewrite slice_to_neg_app.
  destruct r as [|c r]; [discriminate|]. intros H.
  unfold strip in H. rewrite lstrip_clean in H by exact Hs.
  destruct (rstrip_split (c :: r)) as [ws [_ Hr]].
  rewrite Hr, <- app_assoc. now apply startswith_grow.
Qed.

(** A marker at the start after the opening step was preceded by one. *)
Lemma remove_opening_leading t :
  startswith (remove_opening t) FENCE = true -> stacked_opening t.
Proof.
  unfold remove_opening, slice_from.
  destruct (startswith t FENCE_PYTHON) eqn:Hp;
    [|destruct (startswith t FENCE) eqn:Hf; [|congruence]]; intros H.
  - apply startswith_inv in Hp. apply startswith_inv in H.
    destruct (strip_split (skipn (len FENCE_PYTHON) t)) as [ws1 [ws2 [H1 [_ Hr]]]].
    exists (py "python"), ws1, (skipn (len FENCE) (strip (skipn (len FENCE_PYTHON) t)) ++ ws2).
    split; [|auto]. rewrite Hp at 1. rewrite Hr at 1. rewrite H at 1.
    change FENCE_PYTHON with (FENCE ++ py "python").
    now rewrite <- !app_assoc.
  - apply startswith_inv in Hf. apply startswith_inv in H.
    destruct (strip_split (skipn (len FENCE) t)) as [ws1 [ws2 [H1 [_ Hr]]]].
    exists [], ws1, (skipn (len FENCE) (strip (skipn (len FENCE) t)) ++ ws2).
    split; [|auto]. rewrite Hf at 1. rewrite Hr at 1. rewrite H at 1.
    now rewrite <- !app_assoc.
Qed.

(** A marker at the end after the closing step was followed by one. *)
Lemma remove_closing_trailing s :
  endswith (remove_closing s) FENCE = true -> stacked_closing s.
Proof.
  unfold remove_closing. destruct (endswith s FENCE) eqn:He; [|congruence].
  destruct (endswith_split _ _ He) as [r ->]. rewrite slice_to_neg_app.
  intros H. destruct (endswith_split _ _ H) as [q Hq].
  destruct (strip_split r) as [ws1 [ws2 [_ [H2 Hr]]]].
  exists (ws1 ++ q), ws2. split; [|assumption].
  rewrite Hr at 1. rewrite Hq. now rewrite <- !app_assoc.
Qed.

(** What the opening step leaves is a suffix of a trimmed text. *)
Lemma remove_opening_suffix t :
  ends_clean t = true -> exists a, t = a ++ remove_opening t.
Proof.
  intros He.
  assert (forall k, exists a, t = a ++ strip (skipn k t)) as Hk.
  { intros k. destruct (strip_split (skipn k t)) as [ws1 [ws2 [_ [H2 Hr]]]].
    assert (ws2 = []) as ->.
    { apply (ends_clean_no_blank_tail (firstn k t ++ ws1 ++ strip (skipn k t)));
        [|assumption].
      rewrite <- !app_assoc, <- Hr, firstn_skipn. exact He. }
    exists (firstn k t ++ ws1). rewrite app_nil_r in Hr.
    rewrite <- app_assoc, <- Hr. symmetry. apply firstn_skipn. }
  unfold remove_opening, slice_from.
  destruct (startswith t FENCE_PYTHON); [apply Hk|].
  destruct (startswith t FENCE); [apply Hk|]. now exists [].
Qed.

Lemma leading_fence_stacked x :
  startswith (_clean_code x) FENCE = true -> stacked_opening (strip x).
Proof.
  rewrite clean_code_steps. intros H. apply remove_opening_leading.
  apply remove_closing_leading; [|exact H].
  apply remove_opening_clean; [apply strip_starts_clean | apply strip_ends_clean].
Qed.

Lemma trailing_fence_stacked x :
  endswith (_clean_code x) FENCE = true -> stacked_closing (strip x).
Proof.
  rewrite clean_code_steps. intros H. apply remove_closing_trailing in H.
  destruct (remove_opening_suffix (strip x) (strip_ends_clean x)) as [a Ha].
  rewrite Ha. now apply stacked_closing_suffix.
Qed.

Lemma stacked_opening_iff t : stacked_opening t <-> stacked_openingb t = true.
Proof.
  unfold stacked_openingb, slice_from. split.
  - intros [tag [ws [rest [-> [[-> | ->] Hws]]]]]; apply orb_true_iff; [left | right].
    + rewrite startswith_app. simpl skipn.
      rewrite lstrip_blank_app by exact Hws. reflexivity.
    + change (FENCE ++ py "python" ++ ws ++ FENCE ++ rest)
        with (FENCE_PYTHON ++ ws ++ FENCE ++ rest).
      rewrite startswith_app. simpl skipn.
      rewrite lstrip_blank_app by exact Hws. reflexivity.
  - intros H. apply orb_true_iff in H as [H | H];
      apply andb_true_iff in H as [Hf Hn];
      apply startswith_inv in Hf; apply startswith_inv in Hn;
      [destruct (lstrip_split (skipn 3 t)) as [ws [Hws Hr]]
      |destruct (lstrip_split (skipn 9 t)) as [ws [Hws Hr]]].
    + exists [], ws, (skipn (len FENCE) (lstrip (skipn 3 t))).
      split; [|auto]. rewrite Hf at 1. change (len FENCE) with 3 at 1.
      rewrite Hr at 1. rewrite Hn at 1. reflexivity.
    + exists (py "python"), ws, (skipn (len FENCE) (lstrip (skipn 9 t))).
      split; [|auto]. rewrite Hf at 1. change (len FENCE_PYTHON) with 9 at 1.
      rewrite Hr at 1. rewrite Hn at 1. reflexivity.
Qed.

Lemma stacked_closing_iff t : stacked_closing t <-> stacked_closingb t = true.
Proof.
  unfold stacked_closingb. split.
  - intros [pre [ws [-> Hws]]].
    replace (pre ++ FENCE ++ ws ++ FENCE) with ((pre ++ FENCE ++ ws) ++ FENCE)
      by now rewrite <- !app_assoc.
    rewrite endswith_app. change 3 with (len FENCE). rewrite slice_to_neg_app.
    rewrite app_assoc, rstrip_blank_app by exact Hws.
    rewrite rstrip_clean; [apply endswith_app|].
    rewrite ends_clean_suffix; [reflexivity | discriminate].
  - intros H. apply andb_true_iff in H as [Hf Hn].
    destruct (endswith_split _ _ Hf) as [r ->].
    change 3 with (len FENCE) in Hn. rewrite slice_to_neg_app in Hn.
    destruct (endswith_split _ _ Hn) as [q Hq].
    destruct (rstrip_split r) as [ws [Hws Hr]].
    exists q, ws. split; [|assumption].
    rewrite Hr at 1. rewrite Hq. now rewrite <- !app_assoc.
Qed.

(** A text fenced once, as in the test vectors, has no markers in a row;
    a text fenced twice has. *)
Example fenced_once_not_stacked :
  let x := py "```python" ++ NL ++ py "print(1)" ++ NL ++ py "```" in
  ~ stacked_opening (strip x) /\ ~ stacked_closing (strip x).
Proof.
  split; intros H; [apply stacked_opening_iff in H | apply stacked_closing_iff in H];
    vm_compute in H; discriminate.
Qed.

Example fenced_twice_stacked :
  stacked_opening (strip (py "``````x")) /\ stacked_closing (strip (py "x``````")).
Proof.
  split; [apply stacked_opening_iff | apply stacked_closing_iff]; reflexivity.
Qed.

(** ** The normalizer's contract *)

(** C4. The three test vectors: a fenced block tagged [python], a bare fenced
    block and a whitespace-only text are normalized to [print(1)],
    [print(1)] and the empty string. *)
Theorem clean_code_test_vectors :
  _clean_code (py "```python" ++ NL ++ py "print(1)" ++ NL ++ py "```") = py "print(1)" /\
  _clean_code (py "```" ++ NL ++ py "print(1)" ++ NL ++ py "```") = py "print(1)" /\
  _clean_code (py "   " ++ NL ++ py "  ") = [].
Proof. repeat split; reflexivity. Qed.

(** C3, as stated, fails: with two opening markers in a row the first pass
    removes one and the second pass removes the other. *)
Lemma clean_code_not_idempotent :
  _clean_code (py "``````x") = py "```x" /\
  _clean_code (_clean_code (py "``````x")) = py "x" /\
  _clean_code (_clean_code (py "``````x")) <> _clean_code (py "``````x").
Proof. repeat split; try reflexivity. vm_compute. discriminate. Qed.

(** C3, amended. A second pass of the normalizer changes nothing exactly when
    the first pass left no marker at either end of its output; that is the
    case for every input whose trimmed text has no two markers in a row at
    its start or at its end. *)
Theorem clean_code_idempotent_iff x :
  (_clean_code (_clean_code x) = _clean_code x <->
   startswith (_clean_code x) FENCE = false /\
   endswith (_clean_code x) FENCE = false) /\
  (~ stacked_opening (strip x) -> ~ stacked_closing (strip x) ->
   _clean_code (_clean_code x) = _clean_code x).
Proof.
  destruct (clean_code_clean x) as [Hs He].
  assert (startswith (_clean_code x) FENCE = false /\
          endswith (_clean_code x) FENCE = false ->
          _clean_code (_clean_code x) = _clean_code x) as Hfix.
  { intros [Hf Hc]. now apply clean_code_fixed. }
  split; [split; [|exact Hfix]|].
  - intros Heq.
    destruct (startswith (_clean_code x) FENCE) eqn:Hf.
    + pose proof (clean_code_shrinks _ Hs He (or_introl Hf)) as Hlt.
      rewrite Heq in Hlt. lia.
    + destruct (endswith (_clean_code x) FENCE) eqn:Hc; [|auto].
      pose proof (clean_code_shrinks _ Hs He (or_intror Hc)) as Hlt.
      rewrite Heq in Hlt. lia.
  - intros Ho Hc. apply Hfix. split; apply not_true_is_false; intros H.
    + apply Ho. now apply leading_fence_stacked.
    + apply Hc. now apply trailing_fence_stacked.
Qed.

(** C5, as stated, fails: one marker is removed at each end, so a second
    marker behind it is left at the start, resp. at the end, of the output. *)
Lemma clean_code_leaves_marker :
  _clean_code (py "``````x") = py "```x" /\
  startswith (_clean_code (py "``````x")) FENCE = true /\
  _clean_code (py "x``````") = py "x```" /\
  endswith (_clean_code (py "x``````")) FENCE = true.
Proof. repeat split; reflexivity. Qed.

(** C5, amended. The normalizer's output never starts or ends with
    whitespace (it may be empty); it starts with a marker only when the
    trimmed input started with two markers in a row, and ends with a marker
    only when the trimmed input ended with two markers in a row. *)
Theorem clean_code_edges x :
  starts_clean (_clean_code x) = true /\
  ends_clean (_clean_code x) = true /\
  (~ stacked_opening (strip x) -> startswith (_clean_code x) FENCE = false) /\
  (~ stacked_closing (strip x) -> endswith (_clean_code x) FENCE = false).
Proof.
  destruct (clean_code_clean x) as [Hs He].
  repeat split; try assumption; intros Hn; apply not_true_is_false; intros H;
    apply Hn; [now apply leading_fence_stacked | now apply trailing_fence_stacked].
Qed.

(** ** The executor, path by path *)

Lemma str_eqb_eq a b : str_eqb a b = true <-> a = b.
Proof.
  revert b. induction a as [|x a IH]; intros [|y b]; simpl;
    try (split; [discriminate | congruence]); [tauto|].
  rewrite andb_true_iff, N.eqb_eq, IH. split; [intros [-> ->] | intros [= -> ->]]; auto.
Qed.

Lemma str_eqb_neq a b : str_eqb a b = false <-> a <> b.
Proof.
  rewrite <- str_eqb_eq. destruct (str_eqb a b); split; congruence.
Qed.

Ltac run_steps :=
  unfold _run, bind, try_except, print, input, lower, executable,
    run_subprocess, ret, banner, argv.

Lemma run_empty w code :
  _clean_code code = [] -> _run code w = (banner [], Returned MSG_EMPTY).
Proof. intros E. run_steps. rewrite E. reflexivity. Qed.

Lemma run_prompt_raises w code e :
  _clean_code code <> [] -> console_input w PROMPT = inl e ->
  _run code w = (banner (_clean_code code) ++ [EvInput PROMPT], Raised e).
Proof.
  intros Hc Hi. run_steps. destruct (_clean_code code) as [|c r]; [congruence|].
  simpl. rewrite Hi. reflexivity.
Qed.

Lemma run_declined w code confirm :
  _clean_code code <> [] -> console_input w PROMPT = inr confirm ->
  str_lower w confirm <> py "y" ->
  _run code w =
    (banner (_clean_code code) ++ [EvInput PROMPT], Returned MSG_CANCELED).
Proof.
  intros Hc Hi Hl. run_steps. destruct (_clean_code code) as [|c r]; [congruence|].
  simpl. rewrite Hi. apply str_eqb_neq in Hl. rewrite Hl. reflexivity.
Qed.

Lemma run_approved w code confirm :
  _clean_code code <> [] -> console_input w PROMPT = inr confirm ->
  str_lower w confirm = py "y" ->
  _run code w =
    (banner (_clean_code code) ++ [EvInput PROMPT; EvSpawn (argv w code) 60],
     match subprocess_run w (argv w code) 60 with
     | inr process => Returned (result_message process)
     | inl e =>
         if is_TimeoutExpired e then Returned MSG_TIMEOUT
         else if is_Exception e then Returned (MSG_UNEXPECTED ++ str_exception e)
         else Raised e
     end).
Proof.
  intros Hc Hi Hl. run_steps. destruct (_clean_code code) as [|c r] eqn:E; [congruence|].
  simpl. rewrite Hi. apply str_eqb_eq in Hl. rewrite Hl. simpl.
  destruct (subprocess_run w _ 60) as [e|p]; [|reflexivity].
  destruct e; reflexivity.
Qed.

(** ** The report of a completed process *)

Lemma strip_clean_prefix m :
  starts_clean m = true -> exists ws, blank ws = true /\ m = strip m ++ ws.
Proof.
  intros H. unfold strip. rewrite (lstrip_clean m H).
  destruct (rstrip_split m) as [ws [Hws Hm]]. now exists ws.
Qed.

Lemma contains_unfold s sub :
  contains s sub =
  startswith s sub || match s with [] => false | _ :: s' => contains s' sub end.
Proof. destruct s; reflexivity. Qed.

Lemma contains_app a sub b : contains (a ++ sub ++ b) sub = true.
Proof.
  induction a as [|c a IH].
  - simpl app. rewrite contains_unfold, startswith_app. reflexivity.
  - simpl app. rewrite contains_unfold. simpl. rewrite IH. apply orb_true_r.
Qed.

Lemma truthy_nonempty s : s <> [] -> truthy s = true.
Proof. destruct s; [congruence | reflexivity]. Qed.

(** No whitespace among the characters of a printed integer. *)
Lemma str_uint_inked d :
  forallb (fun c => negb (isspace c)) (py (NilEmpty.string_of_uint d)) = true.
Proof. induction d; simpl; auto. Qed.

Lemma str_int_inked z :
  str_int z <> [] /\ forallb (fun c => negb (isspace c)) (str_int z) = true.
Proof.
  unfold str_int. destruct (Z.to_int z) as [d|d]; simpl.
  - destruct d; simpl; (split; [discriminate|]); try reflexivity;
      apply str_uint_inked.
  - split; [discriminate|]. destruct d; simpl; try reflexivity;
      apply str_uint_inked.
Qed.

Lemma inked_ends_clean s :
  forallb (fun c => negb (isspace c)) s = true -> ends_clean s = true.
Proof.
  intros H. unfold ends_clean. destruct (rev s) as [|c r] eqn:E; [reflexivity|].
  simpl. rewrite forallb_forall in H. apply H, in_rev. rewrite E. now left.
Qed.

Lemma str_int_ends_clean z : ends_clean (str_int z) = true.
Proof. apply inked_ends_clean, str_int_inked. Qed.

(** Both streams empty. *)
Lemma result_message_silent p :
  stdout p = [] -> stderr p = [] ->
  result_message p =
    if (returncode p =? 0)%Z then MSG_NO_OUTPUT
    else py "Code execution failed with return code " ++ str_int (returncode p)
           ++ py " and no specific error message.".
Proof.
  intros Ho He. unfold result_message. rewrite Ho, He.
  cbn [truthy app join negb andb].
  destruct (returncode p =? 0)%Z; cbn [negb andb]; [reflexivity|].
  apply strip_id; [reflexivity|].
  rewrite app_assoc. apply ends_clean_suffix. discriminate.
Qed.

(** Standard output only. *)
Lemma result_message_stdout_only p :
  stdout p <> [] -> stderr p = [] ->
  result_message p =
    if negb (returncode p =? 0)%Z
       && negb (contains (LABEL_STDOUT ++ NL ++ strip (stdout p)) (py "Standard Error"))
    then LABEL_STDOUT ++ NL ++ strip (stdout p) ++ NL
           ++ py "Code execution finished with return code: "
           ++ str_int (returncode p)
    else strip (LABEL_STDOUT ++ NL ++ strip (stdout p)).
Proof.
  intros Ho He. unfold result_message. rewrite He, (truthy_nonempty _ Ho).
  cbn [truthy app join negb andb].
  change (truthy (LABEL_STDOUT ++ NL ++ strip (stdout p))) with true.
  cbn [negb andb].
  destruct (negb (returncode p =? 0)%Z
            && negb (contains (LABEL_STDOUT ++ NL ++ strip (stdout p)) (py "Standard Error")));
    [|reflexivity].
  rewrite <- !app_assoc. apply strip_id; [reflexivity|].
  rewrite !app_assoc. rewrite ends_clean_suffix; [apply str_int_ends_clean|].
  apply str_int_inked.
Qed.

(** Both streams present. *)
Lemma result_message_both p :
  stdout p <> [] -> stderr p <> [] ->
  result_message p =
    strip (LABEL_STDOUT ++ NL ++ strip (stdout p) ++ NL
             ++ LABEL_STDERR ++ NL ++ strip (stderr p)).
Proof.
  intros Ho He. unfold result_message.
  rewrite (truthy_nonempty _ Ho), (truthy_nonempty _ He).
  cbn [truthy app join negb andb].
  set (m := (LABEL_STDOUT ++ NL ++ strip (stdout p)) ++ NL
              ++ LABEL_STDERR ++ NL ++ strip (stderr p)).
  assert (truthy m = true) as -> by reflexivity.
  assert (contains m (py "Standard Error") = true) as ->.
  { subst m. change LABEL_STDERR with (py "Standard Error" ++ py ":").
    rewrite (app_assoc _ NL), <- (app_assoc (py "Standard Error")).
    apply contains_app. }
  cbn [negb andb]. rewrite andb_false_r. subst m. now rewrite <- !app_assoc.
Qed.

(** Standard error only. *)
Lemma result_message_stderr_only p :
  stdout p = [] -> stderr p <> [] ->
  result_message p = strip (LABEL_STDERR ++ NL ++ strip (stderr p)).
Proof.
  intros Ho He. unfold result_message. rewrite Ho, (truthy_nonempty _ He).
  cbn [truthy app join negb andb].
  set (m := LABEL_STDERR ++ NL ++ strip (stderr p)).
  assert (truthy m = true) as -> by reflexivity.
  assert (contains m (py "Standard Error") = true) as ->.
  { subst m. change LABEL_STDERR with ([] ++ py "Standard Error" ++ py ":").
    rewrite <- !app_assoc. apply contains_app. }
  cbn [negb andb]. now rewrite andb_false_r.
Qed.

Lemma strip_cons_head c s :
  isspace c = false -> exists r, strip (c :: s) = c :: r.
Proof.
  intros Hc.
  destruct (strip_clean_prefix (c :: s)) as [ws [Hws Hm]];
    [simpl; now rewrite Hc|].
  destruct (strip (c :: s)) as [|c' r].
  - simpl in Hm. subst ws. simpl in Hws. rewrite Hc in Hws. discriminate.
  - injection Hm as -> _. now exists r.
Qed.

(** Every report starts with the letter [S] of a stream label or is one of
    the two sentences for a process without output. *)
Lemma result_message_shape p :
  (exists r, result_message p = 83%N :: r) \/
  result_message p = MSG_NO_OUTPUT \/
  result_message p =
    py "Code execution failed with return code " ++ str_int (returncode p)
      ++ py " and no specific error message.".
Proof.
  destruct (stdout p) as [|co ro] eqn:Ho; destruct (stderr p) as [|ce re] eqn:He.
  - right. rewrite result_message_silent by assumption.
    destruct (returncode p =? 0)%Z; auto.
  - left. rewrite result_message_stderr_only by congruence.
    now apply strip_cons_head.
  - left. rewrite result_message_stdout_only by congruence.
    match goal with |- context [if ?b then _ else _] => destruct b end;
      [eexists; reflexivity | now apply strip_cons_head].
  - left. rewrite result_message_both by congruence.
    now apply strip_cons_head.
Qed.

(** ** The confirmation prompt *)

(** On ASCII text only [y] and [Y] have the lower-case form [y]. *)
Lemma ascii_lower_y s : ascii_lower s = py "y" -> s = py "y" \/ s = py "Y".
Proof.
  destruct s as [|c [|c' s]]; simpl; try discriminate.
  destruct ((65 <=? c) && (c <=? 90))%N eqn:Hc; intros [= H].
  - right. change (py "Y") with [89%N]. f_equal. lia.
  - left. now subst c.
Qed.

(** A process is launched only behind an approval, and only with the
    deadline of 60. *)
Lemma spawn_requires_approval w code args t :
  In (EvSpawn args t) (fst (_run code w)) ->
  approved w code /\ args = argv w code /\ t = 60%Z.
Proof.
  destruct (_clean_code code) as [|c r] eqn:Hc.
  { rewrite (run_empty w code Hc). simpl. intuition discriminate. }
  assert (_clean_code code <> []) as Hne by (rewrite Hc; discriminate).
  destruct (console_input w PROMPT) as [e|confirm] eqn:Hi.
  { rewrite (run_prompt_raises w code e Hne Hi), Hc. simpl. intuition discriminate. }
  destruct (str_eqb (str_lower w confirm) (py "y")) eqn:Hl.
  - apply str_eqb_eq in Hl. rewrite (run_approved w code confirm Hne Hi Hl), Hc.
    simpl. intros [H|[H|[H|[H|[H|[]]]]]]; try discriminate.
    injection H as <- <-.
    split; [split; [exact Hne | now exists confirm]|].
    split; [unfold argv; now rewrite Hc | reflexivity].
  - apply str_eqb_neq in Hl. rewrite (run_declined w code confirm Hne Hi Hl), Hc.
    simpl. intuition discriminate.
Qed.

(** C1. When the normalized source is not empty and the operator answers
    the prompt with anything but the single letter [y] or [Y] (the word
    [yes] included), the call returns the cancellation sentence and launches
    no process.  The one fact used about [str.lower] is that only [y] and [Y]
    have the lower-case form [y]. *)
Theorem decline_cancels w code confirm :
  (forall s, str_lower w s = py "y" -> s = py "y" \/ s = py "Y") ->
  _clean_code code <> [] ->
  console_input w PROMPT = inr confirm ->
  confirm <> py "y" -> confirm <> py "Y" ->
  snd (_run code w) = Returned MSG_CANCELED /\
  existsb is_spawn (fst (_run code w)) = false /\
  MSG_CANCELED = py "Code execution CANCELED by user.".
Proof.
  intros Hlow Hc Hi Hy HY.
  assert (str_lower w confirm <> py "y") as Hl.
  { intros H. destruct (Hlow _ H); contradiction. }
  rewrite (run_declined w code confirm Hc Hi Hl). repeat split.
Qed.

Lemma decline_cancels_witness :
  let w := scripted (inr (py "yes")) (exited (py "1") [] 0) in
  snd (_run (py "print(1)") w) = Returned MSG_CANCELED /\
  existsb is_spawn (fst (_run (py "print(1)") w)) = false /\
  MSG_CANCELED = py "Code execution CANCELED by user.".
Proof.
  apply (decline_cancels (scripted (inr (py "yes")) (exited (py "1") [] 0))
           (py "print(1)") (py "yes")).
  - exact ascii_lower_y.
  - vm_compute. discriminate.
  - reflexivity.
  - vm_compute. discriminate.
  - vm_compute. discriminate.
Defined.

(** C2. When nothing is left of the input after normalization, the call
    returns the sentence for missing code; it neither prompts the operator
    nor launches a process. *)
Theorem empty_code_returns_empty w code :
  _clean_code code = [] ->
  snd (_run code w) = Returned MSG_EMPTY /\
  existsb is_input (fst (_run code w)) = false /\
  existsb is_spawn (fst (_run code w)) = false /\
  MSG_EMPTY = py "Error: No valid Python code provided after cleaning. The input might have been empty or only markdown.".
Proof.
  intros Hc. rewrite (run_empty w code Hc). repeat split.
Qed.

Lemma empty_code_returns_empty_witness :
  let w := scripted (inr (py "y")) (exited (py "1") [] 0) in
  let code := py "```python" ++ NL ++ py "```" in
  snd (_run code w) = Returned MSG_EMPTY /\
  existsb is_input (fst (_run code w)) = false /\
  existsb is_spawn (fst (_run code w)) = false /\
  MSG_EMPTY = py "Error: No valid Python code provided after cleaning. The input might have been empty or only markdown.".
Proof.
  apply (empty_code_returns_empty (scripted (inr (py "y")) (exited (py "1") [] 0))
           (py "```python" ++ NL ++ py "```")).
  reflexivity.
Defined.

(** C8. When an approved launch runs into the deadline, the call returns the
    timeout sentence, which names the 60 seconds; the process was launched
    with the deadline 60, and whatever it had written before it was killed
    is not part of the result. *)
Theorem timeout_reported w code partial_stdout partial_stderr :
  approved w code ->
  subprocess_run w (argv w code) 60 = inl (TimeoutExpired partial_stdout partial_stderr) ->
  _run code w =
    (banner (_clean_code code) ++ [EvInput PROMPT; EvSpawn (argv w code) 60],
     Returned MSG_TIMEOUT) /\
  MSG_TIMEOUT = py "Error: Code execution timed out after 60 seconds." /\
  (forall args t, In (EvSpawn args t) (fst (_run code w)) -> t = 60%Z).
Proof.
  intros [Hc [confirm [Hi Hl]]] Ht. split; [|split; [reflexivity|]].
  - rewrite (run_approved w code confirm Hc Hi Hl), Ht. reflexivity.
  - intros args t H. now apply spawn_requires_approval in H.
Qed.

Lemma timeout_reported_witness :
  let w := scripted (inr (py "Y")) (inl (TimeoutExpired (py "partial") (py "oops"))) in
  let code := py "while True: pass" in
  _run code w =
    (banner (_clean_code code) ++ [EvInput PROMPT; EvSpawn (argv w code) 60],
     Returned MSG_TIMEOUT) /\
  MSG_TIMEOUT = py "Error: Code execution timed out after 60 seconds." /\
  (forall args t, In (EvSpawn args t) (fst (_run code w)) -> t = 60%Z).
Proof.
  apply (timeout_reported
           (scripted (inr (py "Y")) (inl (TimeoutExpired (py "partial") (py "oops"))))
           (py "while True: pass") (py "partial") (py "oops")).
  - split; [vm_compute; discriminate|]. exists (py "Y"). split; reflexivity.
  - reflexivity.
Defined.

(** ** Reports and failures *)

Lemma contains_cons c s sub :
  startswith (c :: s) sub = false -> contains (c :: s) sub = contains s sub.
Proof. intros H. rewrite contains_unfold, H. reflexivity. Qed.

(** The words [Standard Error] are not found in the label of the standard
    output, nor across its end. *)
Lemma contains_after_stdout_label s :
  contains (LABEL_STDOUT ++ NL ++ s) (py "Standard Error")
  = contains s (py "Standard Error").
Proof.
  unfold LABEL_STDOUT, NL. cbn [py list_ascii_of_string map app].
  repeat (rewrite contains_cons by reflexivity).
  reflexivity.
Qed.

(** X18. With an empty standard error and a return code other than zero, the
    report carries the return code: as the failure sentence when standard
    output is empty too, and as a closing note when standard output does not
    itself contain the words [Standard Error]. *)
Lemma return_code_reported p :
  stderr p = [] -> returncode p <> 0%Z ->
  (stdout p = [] ->
   result_message p =
     py "Code execution failed with return code " ++ str_int (returncode p)
       ++ py " and no specific error message.") /\
  (stdout p <> [] ->
   contains (strip (stdout p)) (py "Standard Error") = false ->
   result_message p =
     LABEL_STDOUT ++ NL ++ strip (stdout p) ++ NL
       ++ py "Code execution finished with return code: "
       ++ str_int (returncode p)).
Proof.
  intros He Hrc. apply Z.eqb_neq in Hrc. split.
  - intros Ho. now rewrite (result_message_silent p Ho He), Hrc.
  - intros Ho Hn.
    now rewrite (result_message_stdout_only p Ho He), Hrc,
      contains_after_stdout_label, Hn.
Qed.

(** C6: the report examined at a process that prints the words
    [Standard Error] to its standard output and exits with code 3, its
    standard error empty.  The closing note is left out, the report does not
    carry the code, and it is the report of the same output with code 0. *)
Theorem return_code_lost_in_report :
  let failed := {| stdout := py "Standard Error" ++ NL; stderr := []; returncode := 3 |} in
  let passed := {| stdout := py "Standard Error" ++ NL; stderr := []; returncode := 0 |} in
  result_message failed = LABEL_STDOUT ++ NL ++ py "Standard Error" /\
  contains (result_message failed) (str_int 3) = false /\
  result_message failed = result_message passed /\
  snd (_run (py "print(1)") (scripted (inr (py "y")) (inr failed)))
    = Returned (LABEL_STDOUT ++ NL ++ py "Standard Error").
Proof. repeat split; reflexivity. Qed.

(** C9. The cancellation sentence is returned on a decline and on nothing
    else: the sentences for missing code and for a timeout, every failure
    message and every report of a completed process differ from it, and a
    call that returns it was declined by the operator. *)
Theorem cancellation_recognizable :
  MSG_EMPTY <> MSG_CANCELED /\
  MSG_TIMEOUT <> MSG_CANCELED /\
  (forall message, MSG_UNEXPECTED ++ message <> MSG_CANCELED) /\
  (forall process, result_message process <> MSG_CANCELED) /\
  (forall w code, snd (_run code w) = Returned MSG_CANCELED -> declined w code).
Proof.
  assert (forall message, MSG_UNEXPECTED ++ message <> MSG_CANCELED) as Hu
    by (intros message; cbn; discriminate).
  assert (forall process, result_message process <> MSG_CANCELED) as Hp.
  { intros p. destruct (result_message_shape p) as [[r ->] | [-> | ->]];
      cbn; discriminate. }
  repeat split; try assumption; try (vm_compute; discriminate).
  - destruct (_clean_code code) as [|c r] eqn:Hc; [|discriminate].
    rewrite (run_empty w code Hc) in H. vm_compute in H. discriminate.
  - assert (_clean_code code <> []) as Hc.
    { intros Hc. rewrite (run_empty w code Hc) in H. vm_compute in H. discriminate. }
    destruct (console_input w PROMPT) as [e|confirm] eqn:Hi.
    { rewrite (run_prompt_raises w code e Hc Hi) in H. discriminate. }
    exists confirm. split; [reflexivity|]. intros Hl.
    rewrite (run_approved w code confirm Hc Hi Hl) in H. simpl snd in H.
    destruct (subprocess_run w (argv w code) 60) as [e|p].
    + destruct e; simpl in H; try discriminate;
        injection H as H; revert H; (apply Hu || (vm_compute; discriminate)).
    + injection H as H. now apply Hp in H.
Qed.

(** C7, as stated, fails.  The prompt is read before the [try] block, so an
    end of input there reaches the caller as [EOFError]; and the handlers
    catch [Exception] only, so an interrupt while the approved process runs
    reaches the caller as [KeyboardInterrupt]. *)
Lemma run_can_raise :
  snd (_run (py "print(1)") (scripted (inl EOFError) (exited (py "1") [] 0)))
    = Raised EOFError /\
  snd (_run (py "print(1)") (scripted (inr (py "y")) (inl KeyboardInterrupt)))
    = Raised KeyboardInterrupt /\
  ~ (forall w code, exists text, snd (_run code w) = Returned text).
Proof.
  repeat split; try reflexivity. intros H.
  destruct (H (scripted (inl EOFError) (exited (py "1") [] 0)) (py "print(1)"))
    as [text Ht].
  vm_compute in Ht. discriminate.
Qed.

(** C7, amended.  Whenever the prompt is answered and the launch raises
    nothing outside [Exception], the call returns a text.  A failure of the
    launch that is not a timeout is returned as the fixed prefix followed by
    the failure's message, and no report of a completed process, whatever
    its return code, begins like that. *)
Theorem run_returns_text w code :
  (forall e, console_input w PROMPT <> inl e) ->
  (forall e, subprocess_run w (argv w code) 60 = inl e -> is_Exception e = true) ->
  (exists text, snd (_run code w) = Returned text) /\
  (forall e,
     approved w code -> subprocess_run w (argv w code) 60 = inl e ->
     is_TimeoutExpired e = false ->
     snd (_run code w) = Returned (MSG_UNEXPECTED ++ str_exception e)) /\
  (forall message process, MSG_UNEXPECTED ++ message <> result_message process) /\
  MSG_UNEXPECTED = py "An unexpected error occurred during Python code execution: ".
Proof.
  intros Hin Hex. split; [|split; [|split; [|reflexivity]]].
  - destruct (_clean_code code) as [|c r] eqn:Hc.
    { rewrite (run_empty w code Hc). now eexists. }
    assert (_clean_code code <> []) as Hne by (rewrite Hc; discriminate).
    destruct (console_input w PROMPT) as [e|confirm] eqn:Hi;
      [now destruct (Hin e)|].
    destruct (str_eqb (str_lower w confirm) (py "y")) eqn:Hl.
    + apply str_eqb_eq in Hl. rewrite (run_approved w code confirm Hne Hi Hl).
      simpl snd. destruct (subprocess_run w (argv w code) 60) as [e|p] eqn:Hr;
        [|now eexists].
      specialize (Hex e eq_refl).
      destruct (is_TimeoutExpired e); [now eexists|]. rewrite Hex. now eexists.
    + apply str_eqb_neq in Hl. rewrite (run_declined w code confirm Hne Hi Hl).
      now eexists.
  - intros e [Hc [confirm [Hi Hl]]] Hr Ht.
    rewrite (run_approved w code confirm Hc Hi Hl), Hr. simpl snd.
    now rewrite Ht, (Hex e Hr).
  - intros message p H.
    destruct (result_message_shape p) as [[r Hp] | [Hp | Hp]];
      rewrite Hp in H; cbn in H; discriminate.
Qed.

Lemma run_returns_text_witness :
  let w := scripted (inr (py "y"))
             (inl (StdException (py "[Errno 2] No such file or directory"))) in
  let code := py "print(1)" in
  (exists text, snd (_run code w) = Returned text) /\
  (forall e,
     approved w code -> subprocess_run w (argv w code) 60 = inl e ->
     is_TimeoutExpired e = false ->
     snd (_run code w) = Returned (MSG_UNEXPECTED ++ str_exception e)) /\
  (forall message process, MSG_UNEXPECTED ++ message <> result_message process) /\
  MSG_UNEXPECTED = py "An unexpected error occurred during Python code execution: ".
Proof.
  apply (run_returns_text
           (scripted (inr (py "y"))
              (inl (StdException (py "[Errno 2] No such file or directory"))))
           (py "print(1)")).
  - intros e. discriminate.
  - intros e [= <-]. reflexivity.
Defined.

(** C10, as stated, fails: the report is stripped as a whole, so when the
    standard error holds whitespace only, the newline after its label goes
    too. *)
Lemma report_label_newline_stripped :
  let p := {| stdout := py "a" ++ NL; stderr := NL; returncode := 0 |} in
  stdout p <> [] /\ stderr p <> [] /\
  result_message p = LABEL_STDOUT ++ NL ++ py "a" ++ NL ++ LABEL_STDERR /\
  result_message p <>
    LABEL_STDOUT ++ NL ++ strip (stdout p) ++ NL
      ++ LABEL_STDERR ++ NL ++ strip (stderr p).
Proof.
  repeat split; try reflexivity; discriminate.
Qed.

(** C10, amended.  With both streams non-empty the report is the text
    [Standard Output:], a newline, the stripped standard output, a newline,
    [Standard Error:], a newline and the stripped standard error, the whole
    stripped once more.  That is the text itself when the standard error
    holds more than whitespace; when it holds whitespace only the report
    ends at the label [Standard Error:]. *)
Theorem report_of_both_streams p :
  stdout p <> [] -> stderr p <> [] ->
  result_message p =
    strip (LABEL_STDOUT ++ NL ++ strip (stdout p) ++ NL
             ++ LABEL_STDERR ++ NL ++ strip (stderr p)) /\
  (strip (stderr p) <> [] ->
   result_message p =
     LABEL_STDOUT ++ NL ++ strip (stdout p) ++ NL
       ++ LABEL_STDERR ++ NL ++ strip (stderr p)) /\
  (strip (stderr p) = [] ->
   result_message p = LABEL_STDOUT ++ NL ++ strip (stdout p) ++ NL ++ LABEL_STDERR).
Proof.
  intros Ho He. rewrite (result_message_both p Ho He).
  split; [reflexivity|]. split.
  - intros Hs. apply strip_id; [reflexivity|].
    rewrite !app_assoc. rewrite ends_clean_suffix by exact Hs.
    apply strip_ends_clean.
  - intros ->.
    replace (LABEL_STDOUT ++ NL ++ strip (stdout p) ++ NL ++ LABEL_STDERR ++ NL ++ [])
      with ([] ++ (LABEL_STDOUT ++ NL ++ strip (stdout p) ++ NL ++ LABEL_STDERR) ++ NL)
      by (rewrite <- !app_assoc; reflexivity).
    apply strip_unique; try reflexivity.
    rewrite !app_assoc. now rewrite ends_clean_suffix by discriminate.
Qed.

Lemma report_of_both_streams_witness :
  let p := {| stdout := py "a" ++ NL; stderr := py "b" ++ NL; returncode := 1 |} in
  result_message p =
    strip (LABEL_STDOUT ++ NL ++ strip (stdout p) ++ NL
             ++ LABEL_STDERR ++ NL ++ strip (stderr p)) /\
  (strip (stderr p) <> [] ->
   result_message p =
     LABEL_STDOUT ++ NL ++ strip (stdout p) ++ NL
       ++ LABEL_STDERR ++ NL ++ strip (stderr p)) /\
  (strip (stderr p) = [] ->
   result_message p = LABEL_STDOUT ++ NL ++ strip (stdout p) ++ NL ++ LABEL_STDERR).
Proof.
  apply (report_of_both_streams
           {| stdout := py "a" ++ NL; stderr := py "b" ++ NL; returncode := 1 |});
    simpl; discriminate.
Defined.

(** * Further properties of the normalizer *)

(** What follows the opening marker, once the closing marker is taken off,
    is the body between them. *)
Lemma unwrap_after_opening ws2 body ws3 :
  blank ws2 = true -> blank ws3 = true ->
  starts_clean body = true -> ends_clean body = true ->
  remove_closing (strip (ws2 ++ body ++ ws3 ++ FENCE)) = body.
Proof.
  intros H2 H3 Hs He. destruct body as [|c body].
  - simpl app.
    replace (ws2 ++ ws3 ++ FENCE) with ((ws2 ++ ws3) ++ FENCE ++ [])
      by now rewrite app_nil_r, app_assoc.
    rewrite strip_unique; try reflexivity.
    now rewrite blank_app, H2, H3.
  - replace (ws2 ++ (c :: body) ++ ws3 ++ FENCE)
      with (ws2 ++ ((c :: body) ++ ws3 ++ FENCE) ++ [])
      by now rewrite app_nil_r.
    rewrite strip_unique; try reflexivity; try assumption.
    + unfold remove_closing. rewrite !app_assoc, endswith_app, slice_to_neg_app.
      rewrite <- (app_nil_l ((c :: body) ++ ws3)).
      now apply strip_unique.
    + rewrite !app_assoc. now apply ends_clean_suffix.
Qed.

Lemma strip_fenced ws1 opening inner ws4 :
  blank ws1 = true -> blank ws4 = true -> starts_clean opening = true ->
  opening <> [] ->
  strip (ws1 ++ (opening ++ inner ++ FENCE) ++ ws4) = opening ++ inner ++ FENCE.
Proof.
  intros H1 H4 Hs Hne. apply strip_unique; try assumption.
  - now rewrite starts_clean_prefix.
  - rewrite !app_assoc. now apply ends_clean_suffix.
Qed.

Lemma unwrap_after_opening_python ws1 ws2 body ws3 ws4 :
  blank ws1 = true -> blank ws2 = true -> blank ws3 = true -> blank ws4 = true ->
  starts_clean body = true -> ends_clean body = true ->
  _clean_code (ws1 ++ FENCE_PYTHON ++ ws2 ++ body ++ ws3 ++ FENCE ++ ws4) = body.
Proof.
  intros H1 H2 H3 H4 Hs He. rewrite clean_code_steps.
  replace (ws1 ++ FENCE_PYTHON ++ ws2 ++ body ++ ws3 ++ FENCE ++ ws4)
    with (ws1 ++ (FENCE_PYTHON ++ (ws2 ++ body ++ ws3) ++ FENCE) ++ ws4)
    by now rewrite <- !app_assoc.
  rewrite strip_fenced by (assumption || reflexivity || discriminate).
  unfold remove_opening. rewrite startswith_app.
  replace (slice_from (len FENCE_PYTHON) (FENCE_PYTHON ++ (ws2 ++ body ++ ws3) ++ FENCE))
    with (ws2 ++ body ++ ws3 ++ FENCE)
    by (rewrite <- !app_assoc; reflexivity).
  now apply unwrap_after_opening.
Qed.

(** X1. A block fenced with the [python] tag is unwrapped to its body:
    whitespace may surround the block and separate the markers from the
    body, and the body is any text without whitespace at its ends. *)
Theorem clean_code_unwraps_python_block ws1 ws2 body ws3 ws4 :
  blank ws1 = true -> blank ws2 = true -> blank ws3 = true -> blank ws4 = true ->
  starts_clean body = true -> ends_clean body = true ->
  _clean_code (ws1 ++ FENCE_PYTHON ++ ws2 ++ body ++ ws3 ++ FENCE ++ ws4) = body.
Proof.
  intros H1 H2 H3 H4 Hs He. now apply unwrap_after_opening_python.
Qed.

Lemma clean_code_unwraps_python_block_witness :
  _clean_code (py "  " ++ FENCE_PYTHON ++ NL ++ py "x = 1" ++ NL ++ py "print(x)"
                 ++ NL ++ FENCE ++ NL)
  = py "x = 1" ++ NL ++ py "print(x)".
Proof.
  apply (clean_code_unwraps_python_block (py "  ") NL
           (py "x = 1" ++ NL ++ py "print(x)") NL NL); reflexivity.
Defined.

(** X2. A block fenced with a bare marker is unwrapped to its body, as long
    as the text behind the opening marker does not begin with the word
    [python]; a language tag of another name stays in the output as the
    beginning of the body. *)
Theorem clean_code_unwraps_bare_block ws1 ws2 body ws3 ws4 :
  blank ws1 = true -> blank ws2 = true -> blank ws3 = true -> blank ws4 = true ->
  starts_clean body = true -> ends_clean body = true ->
  startswith (ws2 ++ body ++ ws3 ++ FENCE) (py "python") = false ->
  _clean_code (ws1 ++ FENCE ++ ws2 ++ body ++ ws3 ++ FENCE ++ ws4) = body.
Proof.
  intros H1 H2 H3 H4 Hs He Hp. rewrite clean_code_steps.
  replace (ws1 ++ FENCE ++ ws2 ++ body ++ ws3 ++ FENCE ++ ws4)
    with (ws1 ++ (FENCE ++ (ws2 ++ body ++ ws3) ++ FENCE) ++ ws4)
    by now rewrite <- !app_assoc.
  rewrite strip_fenced by (assumption || reflexivity || discriminate).
  unfold remove_opening.
  replace (startswith (FENCE ++ (ws2 ++ body ++ ws3) ++ FENCE) FENCE_PYTHON)
    with false.
  - rewrite startswith_app.
    replace (slice_from (len FENCE) (FENCE ++ (ws2 ++ body ++ ws3) ++ FENCE))
      with (ws2 ++ body ++ ws3 ++ FENCE)
      by (rewrite <- !app_assoc; reflexivity).
    now apply unwrap_after_opening.
  - rewrite <- Hp. rewrite <- !app_assoc. reflexivity.
Qed.

Lemma clean_code_unwraps_bare_block_witness :
  _clean_code (FENCE ++ py "js" ++ NL ++ py "console.log(1)" ++ NL ++ FENCE)
  = py "js" ++ NL ++ py "console.log(1)".
Proof.
  apply (clean_code_unwraps_bare_block [] []
           (py "js" ++ NL ++ py "console.log(1)") NL []); reflexivity.
Defined.

(** X3. On a text whose trimmed form has no marker at either end the
    normalizer only trims, and these are the only texts on which it only
    trims. *)
Theorem clean_code_only_trims_iff x :
  _clean_code x = strip x <->
  startswith (strip x) FENCE = false /\ endswith (strip x) FENCE = false.
Proof.
  pose proof (strip_starts_clean x) as Hs. pose proof (strip_ends_clean x) as He.
  assert (_clean_code x = _clean_code (strip x)) as Hx
    by now rewrite (clean_code_steps (strip x)), strip_idem.
  rewrite Hx. split.
  - intros Heq.
    destruct (startswith (strip x) FENCE) eqn:Hf.
    + pose proof (clean_code_shrinks _ Hs He (or_introl Hf)) as Hlt.
      rewrite Heq in Hlt. lia.
    + destruct (endswith (strip x) FENCE) eqn:Hc; [|auto].
      pose proof (clean_code_shrinks _ Hs He (or_intror Hc)) as Hlt.
      rewrite Heq in Hlt. lia.
  - intros [Hf Hc]. now apply clean_code_fixed.
Qed.

(** One text occurring inside another, as a run of consecutive characters. *)
Lemma within_strip s : exists a b, s = a ++ strip s ++ b.
Proof. destruct (strip_split s) as [a [b [_ [_ H]]]]. now exists a, b. Qed.

Lemma within_trans (s t u : pystr) :
  (exists a b, t = a ++ s ++ b) -> (exists a b, u = a ++ t ++ b) ->
  exists a b, u = a ++ s ++ b.
Proof.
  intros [a [b ->]] [a' [b' ->]]. exists (a' ++ a), (b ++ b').
  now rewrite <- !app_assoc.
Qed.

Lemma within_skipn k (s : pystr) : exists a b, s = a ++ skipn k s ++ b.
Proof. exists (firstn k s), []. now rewrite app_nil_r, firstn_skipn. Qed.

Lemma within_firstn k (s : pystr) : exists a b, s = a ++ firstn k s ++ b.
Proof. exists [], (skipn k s). simpl. now rewrite firstn_skipn. Qed.

Lemma within_refl (s : pystr) : exists a b, s = a ++ s ++ b.
Proof. exists [], []. simpl. now rewrite app_nil_r. Qed.

(** X4. The normalizer only cuts: its output is a run of consecutive
    characters of its input, and so is never longer than the input. *)
Theorem clean_code_within_input x :
  (exists a b, x = a ++ _clean_code x ++ b) /\ len (_clean_code x) <= len x.
Proof.
  assert (exists a b, x = a ++ _clean_code x ++ b) as H.
  { rewrite clean_code_steps.
    apply within_trans with (t := remove_opening (strip x)).
    - unfold remove_closing, slice_to_neg.
      destruct (endswith _ FENCE); [|apply within_refl].
      eapply within_trans; [apply within_strip | apply within_firstn].
    - apply within_trans with (t := strip x); [|apply within_strip].
      unfold remove_opening, slice_from.
      destruct (startswith _ FENCE_PYTHON);
        [|destruct (startswith _ FENCE); [|apply within_refl]];
        (eapply within_trans; [apply within_strip | apply within_skipn]). }
  split; [exact H|]. destruct H as [a [b H]]. unfold len.
  rewrite H at 2. rewrite !length_app. lia.
Qed.

(** * Further properties of the executor *)

(** The call looks at its argument through the normalizer only. *)
Lemma run_depends_on_clean_code w code1 code2 :
  _clean_code code1 = _clean_code code2 -> _run code1 w = _run code2 w.
Proof. intros H. unfold _run. now rewrite H. Qed.

(** X5. Fencing makes no difference to a call: for a body without whitespace
    or markers at its ends, the call on the body fenced as a [python] block
    prints, asks, launches and returns what the call on the body itself
    does. *)
Theorem run_ignores_python_fence w ws1 ws2 body ws3 ws4 :
  blank ws1 = true -> blank ws2 = true -> blank ws3 = true -> blank ws4 = true ->
  starts_clean body = true -> ends_clean body = true ->
  startswith body FENCE = false -> endswith body FENCE = false ->
  _run (ws1 ++ FENCE_PYTHON ++ ws2 ++ body ++ ws3 ++ FENCE ++ ws4) w = _run body w.
Proof.
  intros H1 H2 H3 H4 Hs He Hf Hc. apply run_depends_on_clean_code.
  rewrite (clean_code_fixed body Hs He Hf Hc).
  now apply unwrap_after_opening_python.
Qed.

Lemma run_ignores_python_fence_witness :
  let w := scripted (inr (py "y")) (exited (py "1" ++ NL) [] 0) in
  _run (FENCE_PYTHON ++ NL ++ py "print(1)" ++ NL ++ FENCE) w = _run (py "print(1)") w.
Proof.
  apply (run_ignores_python_fence
           (scripted (inr (py "y")) (exited (py "1" ++ NL) [] 0))
           [] NL (py "print(1)") NL []); reflexivity.
Defined.

(** X6. Nothing is launched behind the operator's back.  If a call launches
    a process at all, the operator approved; the call printed the normalized
    code, asked once and launched once, in this order; and the program handed
    to the interpreter after [-c] is the very text that was printed. *)
Theorem spawn_only_as_displayed w code args t :
  In (EvSpawn args t) (fst (_run code w)) ->
  approved w code /\
  fst (_run code w) =
    [EvPrint (NL ++ py "--- PROPOSED CLEANED CODE ---");
     EvPrint (_clean_code code);
     EvPrint (py "---------------------------" ++ NL);
     EvInput PROMPT;
     EvSpawn [sys_executable w; py "-c"; _clean_code code] 60].
Proof.
  intros H. destruct (spawn_requires_approval w code args t H) as [Ha _].
  split; [exact Ha|]. destruct Ha as [Hc [confirm [Hi Hl]]].
  now rewrite (run_approved w code confirm Hc Hi Hl).
Qed.

Lemma spawn_only_as_displayed_witness :
  let w := scripted (inr (py "y")) (exited (py "1" ++ NL) [] 0) in
  let code := FENCE ++ NL ++ py "print(1)" ++ NL ++ FENCE in
  approved w code /\
  fst (_run code w) =
    [EvPrint (NL ++ py "--- PROPOSED CLEANED CODE ---");
     EvPrint (_clean_code code);
     EvPrint (py "---------------------------" ++ NL);
     EvInput PROMPT;
     EvSpawn [sys_executable w; py "-c"; _clean_code code] 60].
Proof.
  apply (spawn_only_as_displayed
           (scripted (inr (py "y")) (exited (py "1" ++ NL) [] 0))
           (FENCE ++ NL ++ py "print(1)" ++ NL ++ FENCE)
           [py "/usr/bin/python3"; py "-c"; py "print(1)"] 60).
  vm_compute. auto 10.
Defined.

(** * Further properties of the report *)

(** X7. The report of a completed process is never empty and never starts or
    ends with whitespace. *)
Theorem report_nonempty_trimmed p :
  result_message p <> [] /\
  starts_clean (result_message p) = true /\
  ends_clean (result_message p) = true.
Proof.
  split.
  - destruct (result_message_shape p) as [[r ->] | [-> | ->]]; discriminate.
  - unfold result_message.
    split; [apply strip_starts_clean | apply strip_ends_clean].
Qed.

Lemma result_message_cases p :
  (stdout p = [] /\ stderr p = [] /\ returncode p = 0%Z /\
   result_message p = MSG_NO_OUTPUT) \/
  (stdout p = [] /\ stderr p = [] /\ returncode p <> 0%Z /\
   result_message p =
     py "Code execution failed with return code " ++ str_int (returncode p)
       ++ py " and no specific error message.") \/
  ((stdout p <> [] \/ stderr p <> []) /\ exists r, result_message p = 83%N :: r).
Proof.
  destruct (stdout p) as [|co ro] eqn:Ho; destruct (stderr p) as [|ce re] eqn:He.
  - rewrite (result_message_silent p Ho He).
    destruct (returncode p =? 0)%Z eqn:Hrc.
    + left. apply Z.eqb_eq in Hrc. auto.
    + right. left. apply Z.eqb_neq in Hrc. auto.
  - right. right. split; [right; discriminate|].
    rewrite result_message_stderr_only by congruence. now apply strip_cons_head.
  - right. right. split; [left; discriminate|].
    rewrite result_message_stdout_only by congruence.
    match goal with |- context [if ?b then _ else _] => destruct b end;
      [eexists; reflexivity | now apply strip_cons_head].
  - right. right. split; [left; discriminate|].
    rewrite result_message_both by congruence. now apply strip_cons_head.
Qed.

(** X8. The sentence for a success without output is the report exactly
    when the process wrote nothing to either stream and returned zero. *)
Theorem report_no_output_iff p :
  result_message p = MSG_NO_OUTPUT <->
  stdout p = [] /\ stderr p = [] /\ returncode p = 0%Z.
Proof.
  split.
  - intros H.
    destruct (result_message_cases p)
      as [[Ho [He [Hrc _]]] | [[_ [_ [_ Hm]]] | [_ [r Hm]]]]; [auto | |];
      rewrite Hm in H; cbn in H; discriminate.
  - intros [Ho [He Hrc]]. rewrite (result_message_silent p Ho He), Hrc.
    reflexivity.
Qed.

(** X9. Once the process has written to its standard error, the return code
    plays no part in the report: two processes with the same streams and
    different return codes get the same report. *)
Theorem report_ignores_code_with_stderr out err rc1 rc2 :
  err <> [] ->
  result_message {| stdout := out; stderr := err; returncode := rc1 |}
  = result_message {| stdout := out; stderr := err; returncode := rc2 |}.
Proof.
  intros He. destruct out as [|c out].
  - now rewrite !result_message_stderr_only.
  - now rewrite !result_message_both.
Qed.

Lemma report_ignores_code_with_stderr_witness :
  result_message {| stdout := []; stderr := py "Traceback" ++ NL; returncode := 1 |}
  = result_message {| stdout := []; stderr := py "Traceback" ++ NL; returncode := 0 |}.
Proof.
  apply (report_ignores_code_with_stderr [] (py "Traceback" ++ NL) 1 0).
  discriminate.
Defined.

(** X10. A stream that holds whitespace only still gets its label: a
    process that returns zero and writes nothing but whitespace to its
    standard output is reported as the bare label [Standard Output:]. *)
Theorem report_of_blank_stdout p :
  stdout p <> [] -> blank (stdout p) = true ->
  stderr p = [] -> returncode p = 0%Z ->
  result_message p = LABEL_STDOUT.
Proof.
  intros Ho Hb He Hrc. rewrite (result_message_stdout_only p Ho He), Hrc.
  cbn [Z.eqb negb andb].
  assert (strip (stdout p) = []) as ->
    by (unfold strip; now rewrite (lstrip_blank _ Hb)).
  reflexivity.
Qed.

Lemma report_of_blank_stdout_witness :
  result_message {| stdout := NL; stderr := []; returncode := 0 |} = LABEL_STDOUT.
Proof.
  apply (report_of_blank_stdout {| stdout := NL; stderr := []; returncode := 0 |});
    (reflexivity || discriminate).
Defined.

(** With an empty standard error and a return code other than zero: a
    process that prints and then fails. *)
Lemma return_code_reported_witness :
  let p := {| stdout := py "partial" ++ NL; stderr := []; returncode := 3 |} in
  (stdout p = [] ->
   result_message p =
     py "Code execution failed with return code " ++ str_int (returncode p)
       ++ py " and no specific error message.") /\
  (stdout p <> [] ->
   contains (strip (stdout p)) (py "Standard Error") = false ->
   result_message p =
     LABEL_STDOUT ++ NL ++ strip (stdout p) ++ NL
       ++ py "Code execution finished with return code: "
       ++ str_int (returncode p)).
Proof.
  apply (return_code_reported
           {| stdout := py "partial" ++ NL; stderr := []; returncode := 3 |});
    [reflexivity | discriminate].
Defined.

(** * Properties of the interaction loop *)

Lemma main_loop_main lower turns at_end :
  invoked (fst (main lower turns at_end)) = invoked (fst (main_loop lower turns at_end)) /\
  prompts (fst (main lower turns at_end)) = prompts (fst (main_loop lower turns at_end)) /\
  snd (main lower turns at_end) = snd (main_loop lower turns at_end).
Proof.
  unfold main. destruct (main_loop lower turns at_end) as [trace r].
  repeat split.
Qed.

(** X11. As long as the agent fails with instances of [Exception] only, the
    agent is invoked once for every line typed before the first [exit] that
    is not blank, in order and with the line as it was typed; blank lines
    are skipped and a failure of the agent does not end the loop. *)
Theorem main_invokes_each_line lower turns at_end :
  Forall agent_fails_softly turns ->
  invoked (fst (main lower turns at_end))
  = filter (fun line => truthy (strip line))
      (before_exit lower (map typed turns)).
Proof.
  intros H. destruct (main_loop_main lower turns at_end) as [-> _].
  induction H as [|t rest Ht Hrest IH]; [reflexivity|].
  simpl. destruct (str_eqb (lower (typed t)) (py "exit")); [reflexivity|].
  simpl filter. destruct (truthy (strip (typed t))) eqn:Hb; simpl negb; cbv iota.
  - destruct (agent_result (agent_executor_invoke t (typed t))) as [e|output] eqn:Hr.
    + rewrite (Ht _ _ Hr).
      destruct (main_loop lower rest at_end) as [trace r]. simpl in *. now rewrite IH.
    + destruct (main_loop lower rest at_end) as [trace r]. simpl in *. now rewrite IH.
  - destruct (main_loop lower rest at_end) as [trace r]. simpl in *. exact IH.
Qed.

Lemma main_invokes_each_line_witness :
  invoked (fst (main ascii_lower
                  [echo_turn (py "add 2 and 2"); echo_turn (py "  ");
                   failing_turn (py " exit"); echo_turn (py "EXIT");
                   echo_turn (py "never read")] EOFError))
  = filter (fun line => truthy (strip line))
      (before_exit ascii_lower
         (map typed [echo_turn (py "add 2 and 2"); echo_turn (py "  ");
                     failing_turn (py " exit"); echo_turn (py "EXIT");
                     echo_turn (py "never read")])).
Proof.
  apply (main_invokes_each_line ascii_lower
           [echo_turn (py "add 2 and 2"); echo_turn (py "  ");
            failing_turn (py " exit"); echo_turn (py "EXIT");
            echo_turn (py "never read")] EOFError).
  repeat constructor; intros u e; simpl; intros [= <-]; reflexivity.
Defined.

(** X12. Whatever the agent does, it is only ever invoked with a line the
    user typed, taken as it is, that is neither blank nor, in lower case,
    [exit]. *)
Theorem main_invokes_typed_lines_only lower turns at_end user_input :
  In user_input (invoked (fst (main lower turns at_end))) ->
  In user_input (map typed turns) /\
  strip user_input <> [] /\
  lower user_input <> py "exit".
Proof.
  destruct (main_loop_main lower turns at_end) as [-> _].
  induction turns as [|t rest IH]; simpl; [tauto|].
  destruct (str_eqb (lower (typed t)) (py "exit")) eqn:He; [simpl; tauto|].
  apply str_eqb_neq in He.
  assert (forall trace r, main_loop lower rest at_end = (trace, r) ->
          In user_input (invoked trace) ->
          (typed t = user_input \/ In user_input (map typed rest)) /\
          strip user_input <> [] /\ lower user_input <> py "exit") as Hrest.
  { intros trace r E Hin. rewrite E in IH. simpl in IH. tauto. }
  assert (truthy (strip (typed t)) = true ->
          typed t = user_input ->
          (typed t = user_input \/ In user_input (map typed rest)) /\
          strip user_input <> [] /\ lower user_input <> py "exit") as Hhere.
  { intros Hb <-. repeat split; [now left | | exact He].
    destruct (strip (typed t)); [discriminate | discriminate]. }
  destruct (truthy (strip (typed t))) eqn:Hb; simpl negb; cbv iota.
  - destruct (agent_result (agent_executor_invoke t (typed t))) as [e|output];
      [destruct (is_Exception e)|];
      try (destruct (main_loop lower rest at_end) as [trace r] eqn:E);
      simpl; intros [Hu|Hu]; eauto; contradiction.
  - destruct (main_loop lower rest at_end) as [trace r] eqn:E. simpl. eauto.
Qed.

Lemma main_invokes_typed_lines_only_witness :
  In (py "add 2 and 2") (map typed [echo_turn (py "add 2 and 2"); echo_turn (py "exit")]) /\
  strip (py "add 2 and 2") <> [] /\
  ascii_lower (py "add 2 and 2") <> py "exit".
Proof.
  apply (main_invokes_typed_lines_only ascii_lower
           [echo_turn (py "add 2 and 2"); echo_turn (py "exit")] EOFError
           (py "add 2 and 2")).
  simpl. now left.
Defined.

(** X13. The loop ends at the first [exit]: what is typed after it, and how
    the session would have ended, make no difference to the run. *)
Theorem main_stops_at_exit lower pre t post post' at_end at_end' :
  lower (typed t) = py "exit" ->
  main lower (pre ++ t :: post) at_end = main lower (pre ++ t :: post') at_end'.
Proof.
  intros He. unfold main.
  assert (main_loop lower (pre ++ t :: post) at_end
          = main_loop lower (pre ++ t :: post') at_end') as ->; [|reflexivity].
  induction pre as [|t0 pre IH]; simpl.
  - apply str_eqb_eq in He. now rewrite He.
  - now rewrite IH.
Qed.

Lemma main_stops_at_exit_witness :
  main ascii_lower ([echo_turn (py "hello")] ++ echo_turn (py "Exit") :: [echo_turn (py "more")]) EOFError
  = main ascii_lower ([echo_turn (py "hello")] ++ echo_turn (py "Exit") :: []) KeyboardInterrupt.
Proof.
  apply (main_stops_at_exit ascii_lower [echo_turn (py "hello")] (echo_turn (py "Exit"))
           [echo_turn (py "more")] [] EOFError KeyboardInterrupt).
  reflexivity.
Defined.

(** X14. As long as the agent fails with instances of [Exception] only, the
    loop shows one prompt for every line typed before the first [exit] and
    one more; it returns when a line is [exit], and otherwise it ends with
    the exception that [input] raises at the end of the session. *)
Theorem main_outcome lower turns at_end :
  Forall agent_fails_softly turns ->
  prompts (fst (main lower turns at_end))
  = S (List.length (before_exit lower (map typed turns))) /\
  snd (main lower turns at_end)
  = if existsb (fun line => str_eqb (lower line) (py "exit")) (map typed turns)
    then Returned tt else Raised at_end.
Proof.
  intros H. destruct (main_loop_main lower turns at_end) as [_ [-> ->]].
  induction H as [|t rest Ht Hrest [IHp IHr]]; [split; reflexivity|].
  simpl. destruct (str_eqb (lower (typed t)) (py "exit")); [split; reflexivity|].
  simpl orb. simpl List.length.
  destruct (truthy (strip (typed t))); simpl negb; cbv iota.
  - destruct (agent_result (agent_executor_invoke t (typed t))) as [e|output] eqn:Hr;
      [rewrite (Ht _ _ Hr)|];
      destruct (main_loop lower rest at_end) as [trace r]; simpl in *;
      now rewrite IHp.
  - destruct (main_loop lower rest at_end) as [trace r]; simpl in *.
    now rewrite IHp.
Qed.

Lemma main_outcome_witness :
  let turns := [failing_turn (py "draw a cat"); echo_turn (py "add 2 and 2")] in
  prompts (fst (main ascii_lower turns EOFError))
  = S (List.length (before_exit ascii_lower (map typed turns))) /\
  snd (main ascii_lower turns EOFError)
  = if existsb (fun line => str_eqb (ascii_lower line) (py "exit")) (map typed turns)
    then Returned tt else Raised EOFError.
Proof.
  apply (main_outcome ascii_lower
           [failing_turn (py "draw a cat"); echo_turn (py "add 2 and 2")] EOFError).
  repeat constructor; intros u e; simpl; intros [= <-]; reflexivity.
Defined.

(** * Properties of the start-up *)

(** X15. The script goes on to build the agent exactly when the key is set
    and not empty, the client could be built and the probe was answered; the
    answer itself is not looked at.  The model is contacted with the key of
    the environment only, never without one, and when the start-up exits it
    exits with status 1. *)
Theorem startup_ready_iff env :
  (snd (startup env) = Ready <->
   exists key reply,
     getenv_GROQ_API_KEY env = Some key /\ key <> [] /\
     ChatGroq env MODEL_NAME key = None /\ llm_invoke env PROBE = inr reply) /\
  (existsb is_contact (fst (startup env)) = true ->
   exists key,
     getenv_GROQ_API_KEY env = Some key /\ key <> [] /\
     In (UConstruct MODEL_NAME key) (fst (startup env))) /\
  (forall status, snd (startup env) = Exited status -> status = 1%Z).
Proof.
  unfold startup, startup_handler.
  destruct (getenv_GROQ_API_KEY env) as [[|c key]|]; simpl.
  - split; [split|split]; try discriminate.
    + intros [key [reply [Hs [Hne _]]]]. injection Hs as <-. now destruct Hne.
    + intros status [= <-]. reflexivity.
  - destruct (ChatGroq env MODEL_NAME (c :: key)) as [e|] eqn:Hc;
      [destruct (is_Exception e)
      |destruct (llm_invoke env PROBE) as [e|reply] eqn:Hp;
         [destruct (is_Exception e)|]];
      simpl; (split; [split|split]);
      try discriminate;
      try (intros status [= <-]; reflexivity);
      try (intros [k [r [Hs [_ [Hc' Hp']]]]]; injection Hs as <-; congruence);
      try (intros _; exists (c :: key); repeat split; [discriminate | now left]).
    intros _. exists (c :: key), reply.
    split; [reflexivity|split; [discriminate|split; [exact Hc|reflexivity]]].
  - split; [split|split]; try discriminate.
    + intros [key [reply [Hs _]]]. discriminate.
    + intros status [= <-]. reflexivity.
Qed.

(** * Every path of the executor at once *)

Lemma run_paths w code :
  (_clean_code code = [] /\ _run code w = (banner [], Returned MSG_EMPTY)) \/
  (_clean_code code <> [] /\
   ((exists e, console_input w PROMPT = inl e /\
               _run code w = (banner (_clean_code code) ++ [EvInput PROMPT], Raised e)) \/
    (declined w code /\
     _run code w = (banner (_clean_code code) ++ [EvInput PROMPT], Returned MSG_CANCELED)) \/
    (approved w code /\
     _run code w =
       (banner (_clean_code code) ++ [EvInput PROMPT; EvSpawn (argv w code) 60],
        match subprocess_run w (argv w code) 60 with
        | inr process => Returned (result_message process)
        | inl e =>
            if is_TimeoutExpired e then Returned MSG_TIMEOUT
            else if is_Exception e then Returned (MSG_UNEXPECTED ++ str_exception e)
            else Raised e
        end)))).
Proof.
  destruct (_clean_code code) as [|c r] eqn:Hc.
  { left. split; [reflexivity|]. now apply run_empty. }
  right. assert (_clean_code code <> []) as Hne by (rewrite Hc; discriminate).
  rewrite <- Hc. split; [exact Hne|].
  destruct (console_input w PROMPT) as [e|confirm] eqn:Hi.
  { left. exists e. split; [reflexivity|]. now apply run_prompt_raises. }
  right. destruct (str_eqb (str_lower w confirm) (py "y")) eqn:Hl.
  - right. apply str_eqb_eq in Hl. split; [split; [exact Hne | now exists confirm]|].
    now apply (run_approved w code confirm).
  - left. apply str_eqb_neq in Hl. split; [split; [exact Hne | now exists confirm]|].
    now apply (run_declined w code confirm).
Qed.

(** X16. Whatever happens, the call first prints the normalized code between
    its two rules; after that it asks at most once and launches at most
    once, and only after asking.  It asks exactly when the normalized code
    is not empty. *)
Theorem run_shows_code_first w code :
  exists tail,
    fst (_run code w) = banner (_clean_code code) ++ tail /\
    (tail = [] \/ tail = [EvInput PROMPT] \/
     tail = [EvInput PROMPT; EvSpawn (argv w code) 60]) /\
    (tail = [] <-> _clean_code code = []).
Proof.
  destruct (run_paths w code)
    as [[Hc ->] | [Hc [[e [_ ->]] | [[_ ->] | [_ ->]]]]]; simpl fst.
  - exists []. rewrite Hc. repeat split; auto.
  - exists [EvInput PROMPT]. repeat split; auto; [discriminate | contradiction].
  - exists [EvInput PROMPT]. repeat split; auto; [discriminate | contradiction].
  - exists [EvInput PROMPT; EvSpawn (argv w code) 60].
    repeat split; auto; [discriminate | contradiction].
Qed.

(** X17. A text returned by the call is never empty: the agent always gets
    something to read as its observation. *)
Theorem run_never_returns_empty w code text :
  snd (_run code w) = Returned text -> text <> [].
Proof.
  destruct (run_paths w code)
    as [[Hc ->] | [Hc [[e [_ ->]] | [[_ ->] | [_ ->]]]]]; simpl snd.
  - intros [= <-]. discriminate.
  - discriminate.
  - intros [= <-]. discriminate.
  - destruct (subprocess_run w (argv w code) 60) as [e|p].
    + destruct (is_TimeoutExpired e); [intros [= <-]; discriminate|].
      destruct (is_Exception e); [intros [= <-]; discriminate | discriminate].
    + intros [= <-]. destruct (result_message_cases p)
        as [[_ [_ [_ ->]]] | [[_ [_ [_ ->]]] | [_ [r ->]]]]; discriminate.
Qed.

Lemma run_never_returns_empty_witness :
  result_message {| stdout := NL; stderr := []; returncode := 0 |} <> [].
Proof.
  apply (run_never_returns_empty
           (scripted (inr (py "y")) (exited NL [] 0)) (py "print()")
           (result_message {| stdout := NL; stderr := []; returncode := 0 |})).
  reflexivity.
Defined.
